(** * freeotp-export: a shallow embedding of [freeotp-export.py]

    The script unwraps an Android backup of FreeOTP, decodes the token
    records of [tokens.xml], turns every record into an [otpauth://] URI
    (rendered as a QR code image) and lays the images out on PDF pages.

    Conventions of the embedding:
    - a Python [int] is a [Z]; a Python [bytes] is a [list Z] of values
      in [0, 256) or, once it holds text, a [list ascii];
    - a Python [str] is a [string] holding its UTF-8 bytes (comparing two
      such strings byte by byte is comparing them code point by code point);
    - a [dict] produced by [json.loads] is a [gmap string pyval];
    - an uncaught exception is the [Err] case of [result];
    - calls into third-party code whose effect matters (the QR encoder,
      the PDF writer) are recorded in explicit traces. *)

From stdpp Require Import base option list gmap strings pretty sorting.
From Stdlib Require Import ZArith Lia Ascii.

Open Scope Z_scope.

Abbreviation list_ascii_of_string := String.list_ascii_of_string.
Abbreviation string_of_list_ascii := String.string_of_list_ascii.

(** ** Exceptions and the error monad *)

Inductive exn : Type :=
  | SystemExit (msg : string)      (* [fail]: message on stderr, exit status 1 *)
  | FileNotFoundError
  | ZlibError                      (* [zlib.error] *)
  | TarReadError                   (* [tarfile.ReadError] *)
  | XMLParseError                  (* [xml.etree.ElementTree.ParseError] *)
  | JSONDecodeError                (* [json.JSONDecodeError] *)
  | UnboundLocalError (var : string)
  | KeyError (key : string)
  | TypeError
  | ValueError
  | AttributeError
  | BinasciiError                  (* [binascii.Error] *)
  | OverflowError.

Inductive result (A : Type) : Type :=
  | Ok (a : A)
  | Err (e : exn).
Arguments Ok {A} a.
Arguments Err {A} e.

#[global] Instance result_ret : MRet result := fun A a => Ok a.

#[global] Instance result_bind : MBind result := fun A B k r =>
  match r with
  | Ok a => k a
  | Err e => Err e
  end.

Definition is_ok {A : Type} (r : result A) : bool :=
  match r with Ok _ => true | Err _ => false end.

(** ** Base32 (Python's [base64.b32encode] and [base64.b32decode]) *)

Module Base32.

Definition alphabet : list ascii :=
  list_ascii_of_string "ABCDEFGHIJKLMNOPQRSTUVWXYZ234567".

Definition pad : ascii := "="%char.

(** [_b32tab]: the character of a 5-bit value. *)
Definition tab (v : Z) : ascii := nth (Z.to_nat v) alphabet pad.

Fixpoint index_of (c : ascii) (l : list ascii) (i : Z) : option Z :=
  match l with
  | [] => None
  | a :: l' => if Ascii.eqb a c then Some i else index_of c l' (i + 1)
  end.

(** [_b32rev]: the 5-bit value of a character, if it has one. *)
Definition rev (c : ascii) : option Z := index_of c alphabet 0.

(** [int.from_bytes(s[i:i+5])]: the big-endian value of five bytes. *)
Definition from_bytes (b0 b1 b2 b3 b4 : Z) : Z :=
  b0 * 2 ^ 32 + b1 * 2 ^ 24 + b2 * 2 ^ 16 + b3 * 2 ^ 8 + b4.

(** The eight characters of one 40-bit quantum.  (CPython looks them up
    two at a time in [_b32tab2], the table of the pairs
    [_b32tab[v >> 5] + _b32tab[v & 31]] of the 10-bit values [v]; the
    characters are the same.) *)
Definition quantum (c : Z) : list ascii :=
  [ tab (Z.land (Z.shiftr c 35) 31); tab (Z.land (Z.shiftr c 30) 31);
    tab (Z.land (Z.shiftr c 25) 31); tab (Z.land (Z.shiftr c 20) 31);
    tab (Z.land (Z.shiftr c 15) 31); tab (Z.land (Z.shiftr c 10) 31);
    tab (Z.land (Z.shiftr c 5) 31);  tab (Z.land c 31) ].

(** The loop [for i in range(0, len(s), 5)] over the padded input. *)
Fixpoint encode_quanta (s : list Z) : list ascii :=
  match s with
  | b0 :: b1 :: b2 :: b3 :: b4 :: rest =>
      quantum (from_bytes b0 b1 b2 b3 b4) ++ encode_quanta rest
  | _ => []
  end.

(** [encoded[-k:] = b'=' * k] on an [encoded] of at least [k] characters. *)
Definition set_tail_pad (k : nat) (encoded : list ascii) : list ascii :=
  take (length encoded - k)%nat encoded ++ replicate k pad.

Definition b32encode (s : list Z) : list ascii :=
  let leftover := (length s mod 5)%nat in
  let s' := if decide (leftover = 0%nat) then s
            else s ++ replicate (5 - leftover)%nat 0 in
  let encoded := encode_quanta s' in
  match leftover with
  | 1%nat => set_tail_pad 6 encoded
  | 2%nat => set_tail_pad 4 encoded
  | 3%nat => set_tail_pad 3 encoded
  | 4%nat => set_tail_pad 1 encoded
  | _ => encoded
  end.

(** [s.rstrip(b'=')] *)
Definition rstrip_pad (s : list ascii) : list ascii :=
  foldr (fun c acc =>
           match acc with
           | [] => if Ascii.eqb c pad then [] else [c]
           | _ => c :: acc
           end) [] s.

(** [acc = (acc << 5) + b32rev[c]] over the characters of one quantum. *)
Fixpoint accumulate (acc : Z) (q : list ascii) : result Z :=
  match q with
  | [] => Ok acc
  | c :: q' =>
      match rev c with
      | Some v => accumulate (Z.shiftl acc 5 + v) q'
      | None => Err BinasciiError
      end
  end.

(** [acc.to_bytes(5)], big endian. *)
Definition to_bytes5 (acc : Z) : result (list Z) :=
  if decide (0 ≤ acc < 2 ^ 40) then
    Ok [ Z.land (Z.shiftr acc 32) 255; Z.land (Z.shiftr acc 24) 255;
         Z.land (Z.shiftr acc 16) 255; Z.land (Z.shiftr acc 8) 255;
         Z.land acc 255 ]
  else Err OverflowError.

(** The loop [for i in range(0, len(s), 8)] over the stripped input:
    returns the bytes decoded so far and the last value of [acc]. *)
Fixpoint decode_quanta (fuel : nat) (s : list ascii) (decoded : list Z)
    (acc : Z) : result (list Z * Z) :=
  match fuel with
  | O => Ok (decoded, acc)
  | S fuel' =>
      match s with
      | [] => Ok (decoded, acc)
      | _ =>
          acc' ← accumulate 0 (take 8 s) ;
          bs ← to_bytes5 acc' ;
          decode_quanta fuel' (drop 8 s) (decoded ++ bs) acc'
      end
  end.

Definition b32decode (s : list ascii) : result (list Z) :=
  if existsb (fun c => 128 <=? Z.of_nat (nat_of_ascii c)) s then Err ValueError
  else if decide ((length s mod 8)%nat ≠ 0%nat) then Err BinasciiError
  else
    let l := length s in
    let s' := rstrip_pad s in
    let padchars := (l - length s')%nat in
    '(decoded, acc) ← decode_quanta (length s') s' [] 0 ;
    if negb (bool_decide (padchars ∈ [0; 1; 3; 4; 6]%nat)) then Err BinasciiError
    else
      match padchars, decoded with
      | O, _ | _, [] => Ok decoded
      | _, _ =>
          last ← to_bytes5 (Z.shiftl acc (5 * Z.of_nat padchars)) ;
          let leftover := Z.to_nat ((43 - 5 * Z.of_nat padchars) / 8) in
          Ok (take (length decoded - 5)%nat decoded ++ take leftover last)
      end.

End Base32.

(** ** [secret_to_b32] *)

(** [bytes((x + 256) & 255 for x in secret)]: every value lies in
    [range(256)], so the [bytes] constructor never raises. *)
Definition secret_bytes (secret : list Z) : list Z :=
  map (fun x => Z.land (x + 256) 255) secret.

Definition secret_to_b32 (secret : list Z) : string :=
  let sec := secret_bytes secret in
  let code := Base32.b32encode sec in
  string_of_list_ascii code.

(** [base64.b32decode] applied to a [str]. *)
Definition b32decode_str (s : string) : result (list Z) :=
  Base32.b32decode (list_ascii_of_string s).

(** ** Python values found in a token record

    FreeOTP writes every token as a JSON object whose members are strings
    ([type], [label], [algo], [issuerInt], ...), integers ([digits],
    [period], [counter]) and one array of integers ([secret]).  The
    embedding covers these three kinds of values, with Python's behaviour
    on each of them; other JSON values (null, booleans, floats, nested
    objects) are outside its value type. *)

Inductive pyval : Type :=
  | VStr (s : string)
  | VInt (n : Z)
  | VList (l : list Z).

#[global] Instance pyval_eq_dec : EqDecision pyval.
Proof. solve_decision. Defined.

(** What [json.loads] returns: a [dict], or a value without a [get] method. *)
Inductive json : Type :=
  | JDict (d : gmap string pyval)
  | JOther.

(** Truth value of a Python object. *)
Definition truthy (v : pyval) : bool :=
  match v with
  | VStr s => negb (bool_decide (s = EmptyString))
  | VInt n => negb (n =? 0)
  | VList l => negb (bool_decide (l = []))
  end.

(** Truth value of the result of [dict.get], [None] when the key is absent. *)
Definition truthy_opt (o : option pyval) : bool :=
  match o with
  | Some v => truthy v
  | None => false
  end.

Fixpoint join (sep : string) (l : list string) : string :=
  match l with
  | [] => EmptyString
  | [s] => s
  | s :: l' => s +:+ sep +:+ join sep l'
  end.

(** [str(v)], which is also how an f-string formats [v]. *)
Definition py_str (v : pyval) : string :=
  match v with
  | VStr s => s
  | VInt n => pretty n
  | VList l => "[" +:+ join ", " (map pretty l) +:+ "]"
  end.

(** [token.get(k)] *)
Definition token_get (token : gmap string pyval) (k : string) : option pyval :=
  token !! k.

(** [token[k]] *)
Definition token_item (token : gmap string pyval) (k : string) : result pyval :=
  match token !! k with
  | Some v => Ok v
  | None => Err (KeyError k)
  end.

(** Attribute lookup [token.get]: only a [dict] has it. *)
Definition as_dict (token : json) : result (gmap string pyval) :=
  match token with
  | JDict d => Ok d
  | JOther => Err AttributeError
  end.

(** ** [urllib.parse.quote] with its default [safe='/'] *)

Definition in_range (lo hi c : ascii) : bool :=
  (nat_of_ascii lo <=? nat_of_ascii c)%nat && (nat_of_ascii c <=? nat_of_ascii hi)%nat.

Definition always_safe (c : ascii) : bool :=
  in_range "A" "Z" c || in_range "a" "z" c || in_range "0" "9" c
  || Ascii.eqb c "_" || Ascii.eqb c "." || Ascii.eqb c "-" || Ascii.eqb c "~".

Definition is_safe (c : ascii) : bool := always_safe c || Ascii.eqb c "/".

Definition hex_digit (n : nat) : ascii :=
  nth n (list_ascii_of_string "0123456789ABCDEF") "0"%char.

(** ['%{:02X}'.format(b)] for an unsafe byte, the byte itself otherwise. *)
Definition quote_byte (c : ascii) : string :=
  if is_safe c then String c EmptyString
  else String "%" (String (hex_digit (nat_of_ascii c / 16))
                     (String (hex_digit (nat_of_ascii c mod 16)) EmptyString)).

Fixpoint quote_str (s : string) : string :=
  match s with
  | EmptyString => EmptyString
  | String c s' => quote_byte c +:+ quote_str s'
  end.

(** [quote] accepts a [str]; an [int] or a [list] reaches
    [quote_from_bytes], which raises [TypeError]. *)
Definition quote (v : pyval) : result string :=
  match v with
  | VStr s => Ok (quote_str s)
  | _ => Err TypeError
  end.

(** ** [str.lower] on ASCII strings

    On a [str] of ASCII characters [str.lower] maps [A]..[Z] to
    [a]..[z] and keeps every other character; this is [lower].  On code
    points above 127 Python follows the Unicode case mappings, which are
    not part of the embedding: [lower] is [str.lower] on the strings
    that satisfy [is_ascii] (such as the types [TOTP] and [HOTP] that
    FreeOTP writes), and what is stated about a lowercased string is
    stated for those. *)

Definition is_ascii (s : string) : bool :=
  forallb (fun c => (nat_of_ascii c <? 128)%nat) (list_ascii_of_string s).

Definition lower_ascii (c : ascii) : ascii :=
  if in_range "A" "Z" c then ascii_of_nat (nat_of_ascii c + 32) else c.

Fixpoint lower (s : string) : string :=
  match s with
  | EmptyString => EmptyString
  | String c s' => String (lower_ascii c) (lower s')
  end.

(** [v.lower()]: only a [str] has the method. *)
Definition py_lower (v : pyval) : result string :=
  match v with
  | VStr s => Ok (lower s)
  | _ => Err AttributeError
  end.

(** ** [secret_to_b32] at its call site, where the argument is whatever
    the record holds under ["secret"]: iterating an [int] raises
    [TypeError], and so does [x + 256] on a character of a non-empty
    [str]; the empty [str] yields no byte at all. *)
Definition call_secret_to_b32 (secret : pyval) : result string :=
  match secret with
  | VList l => Ok (secret_to_b32 l)
  | VStr EmptyString => Ok (secret_to_b32 [])
  | VStr _ => Err TypeError
  | VInt _ => Err TypeError
  end.

(** ** [query_data] *)

(** ["&".join([f'{quote(d)}={quote(p[d])}' for d in p])]; the [dict] [p]
    is an association list in insertion order. *)
Fixpoint query_items (p : list (string * pyval)) : result (list string) :=
  match p with
  | [] => Ok []
  | (d, v) :: p' =>
      qv ← quote v ;
      rest ← query_items p' ;
      Ok ((quote_str d +:+ "=" +:+ qv) :: rest)
  end.

Definition query_data (p : list (string * pyval)) : result string :=
  items ← query_items p ;
  Ok (join "&" items).

(** ** Paths ([pathlib.Path] on a POSIX system)

    A path is a root (none, ["/"] or ["//"]) followed by components.
    When pathlib reads a string it drops the empty components and the
    components ["."], and keeps [".."]; [str] writes the root and the
    components joined by ["/"], and ["."] for the path without root and
    components.  The embedding carries a path as the string [str] gives,
    which pathlib reads back to the same path. *)

(** [s.split('/')] *)
Fixpoint split_slash (s : string) : list string :=
  match s with
  | EmptyString => [EmptyString]
  | String c s' =>
      if Ascii.eqb c "/" then EmptyString :: split_slash s'
      else
        match split_slash s' with
        | [] => [String c EmptyString]
        | part :: parts => String c part :: parts
        end
  end.

(** The root of a path string and what follows it: exactly two leading
    slashes are a root of their own, any other number of them is ["/"]. *)
Definition split_root (s : string) : string * string :=
  match s with
  | String c1 s1 =>
      if Ascii.eqb c1 "/" then
        match s1 with
        | String c2 s2 =>
            if Ascii.eqb c2 "/" then
              match s2 with
              | String c3 _ => if Ascii.eqb c3 "/" then ("/"%string, s1)
                               else ("//"%string, s2)
              | EmptyString => ("//"%string, s2)
              end
            else ("/"%string, s1)
        | EmptyString => ("/"%string, s1)
        end
      else (EmptyString, s)
  | EmptyString => (EmptyString, s)
  end.

(** A component that is kept. *)
Definition is_part (x : string) : bool :=
  negb (String.eqb x EmptyString) && negb (String.eqb x ".").

Record pure_path : Type := PurePath {
  path_root : string;
  path_parts : list string
}.

(** [Path(s)] *)
Definition parse_path (s : string) : pure_path :=
  let '(root, rel) := split_root s in
  PurePath root (List.filter is_part (split_slash rel)).

(** [path / name]: a name with a root replaces the path. *)
Definition path_div (path : pure_path) (name : string) : pure_path :=
  let q := parse_path name in
  if String.eqb (path_root q) EmptyString then
    PurePath (path_root path) (path_parts path ++ path_parts q)
  else q.

(** [str(path)] *)
Definition path_str (path : pure_path) : string :=
  match path_root path, path_parts path with
  | EmptyString, [] => "."
  | root, parts => root +:+ join "/" parts
  end.

(** [str(Path(workdir) / name)] *)
Definition path_join (workdir name : string) : string :=
  path_str (path_div (parse_path workdir) name).

(** ** [generate_images] *)

(** The [if]/[elif] chain that picks the issuer of the [i]-th token. *)
Definition issuer_of (i : Z) (token : gmap string pyval) : result pyval :=
  if truthy_opt (token_get token "issuerInt") then token_item token "issuerInt"
  else if truthy_opt (token_get token "issuerExt") then token_item token "issuerExt"
  else if truthy_opt (token_get token "issuerAlt") then token_item token "issuerAlt"
  else if truthy_opt (token_get token "labelAlt") then token_item token "labelAlt"
  else Ok (VStr ("Unknown" +:+ pretty i)).

(** The conditional expression bound to [label] (the caption). *)
Definition label_of (token : gmap string pyval) : result pyval :=
  if truthy_opt (token_get token "issuerExt") then
    e ← token_item token "issuerExt" ;
    l ← token_item token "label" ;
    Ok (VStr (py_str e +:+ ":" +:+ py_str l))
  else token_item token "label".

(** The body of the loop up to the assignment of [uri], in the order in
    which Python evaluates it: returns [label] and [uri]. *)
Definition token_uri (i : Z) (token : json) : result (pyval * string) :=
  d ← as_dict token ;
  issuer ← issuer_of i d ;
  secret ← token_item d "secret" ;
  b32_secret ← call_secret_to_b32 secret ;
  algo ← token_item d "algo" ;
  digits ← token_item d "digits" ;
  period ← token_item d "period" ;
  let param :=
    [ ("secret"%string, VStr b32_secret);
      ("issuer"%string, issuer);
      ("algorithm"%string, algo);
      ("digits"%string, VStr (py_str digits));
      ("period"%string, VStr (py_str period)) ] in
  label ← label_of d ;
  type ← token_item d "type" ;
  ltype ← py_lower type ;
  qlabel ← quote label ;
  qdata ← query_data param ;
  Ok (label, "otpauth://" +:+ ltype +:+ "/" +:+ qlabel +:+ "?" +:+ qdata).

(** [str(images_path / f"{i}.png")] *)
Definition image_file (images_path : string) (i : Z) : string :=
  path_join images_path (pretty i +:+ ".png").

(** One image written by [qrcode.make(uri)] and [img.save(file_path)]. *)
Record saved_image : Type := SavedImage {
  img_uri : string;
  img_file : string
}.

(** What [generate_images] has done when it returns or raises: the images
    written so far, and the list it returns or the exception. *)
Record gen_outcome : Type := GenOutcome {
  gen_saved : list saved_image;
  gen_result : result (list (string * string))
}.

(** The [for token in tokens] loop, with the loop variables [i] and
    [qrcode_list] and the images written so far.  A caption that reached
    [qrcode_list] went through [quote], hence is a [str]; it is stored as
    that [str]. *)
Fixpoint generate_images_loop (images_path : string) (tokens : list json)
    (i : Z) (qrcode_list : list (string * string))
    (saved : list saved_image) : gen_outcome :=
  match tokens with
  | [] => GenOutcome saved (Ok qrcode_list)
  | token :: tokens' =>
      match token_uri i token with
      | Err e => GenOutcome saved (Err e)
      | Ok (label, uri) =>
          let file_path := image_file images_path i in
          generate_images_loop images_path tokens' (i + 1)
            (qrcode_list ++ [(py_str label, file_path)])
            (saved ++ [SavedImage uri file_path])
      end
  end.

Definition generate_images (images_path : string) (tokens : list json)
    : gen_outcome :=
  generate_images_loop images_path tokens 0 [] [].

(** ** [sorted(qrcode_list, key=lambda qc: qc[0])]

    Python's [sorted] is stable and compares the keys with [<]; on [str]
    keys that is the lexicographic order of the code points.  A stable
    sort is determined by its input and the order, so the insertion sort
    below computes what [sorted] returns. *)

Fixpoint insert_by_key (x : string * string) (l : list (string * string))
    : list (string * string) :=
  match l with
  | [] => [x]
  | y :: l' =>
      if String.ltb (fst y) (fst x) then y :: insert_by_key x l'
      else x :: y :: l'
  end.

Definition sorted_by_caption (l : list (string * string))
    : list (string * string) :=
  foldr insert_by_key [] l.

(** ** The PDF writer ([fpdf.FPDF]) as a trace of calls *)

Inductive pdf_cmd : Type :=
  | SetFont (family style : string) (size : Z)
  | AddPage
  | Image (name : string) (x y w h : Z)
  | Text (x y : Z) (txt : string)
  | Output (name : string).

Definition QRCODE_W : Z := 35.
Definition QRCODE_H : Z := 35.

(** [add_image]: the calls are appended to the document [pdf]. *)
Definition add_image (pdf : list pdf_cmd) (image text : string) (x y : Z)
    : list pdf_cmd :=
  pdf ++ [Image image x y QRCODE_W QRCODE_H; Text x (y + QRCODE_H + 2) text].

(** The loop of [write_to_pdf_file] on the document [pdf] and the cursor
    [(x, y)]. *)
Fixpoint write_loop (pdf : list pdf_cmd) (qrcode_list : list (string * string))
    (x y : Z) : list pdf_cmd :=
  match qrcode_list with
  | [] => pdf
  | qc :: rest =>
      let '(x, y) :=
        if decide (x > 150) then (10, y + QRCODE_H + 13) else (x, y) in
      let '(pdf, x, y) :=
        if decide (y > 250) then (pdf ++ [AddPage], 10, 10) else (pdf, x, y) in
      let pdf := add_image pdf (snd qc) (fst qc) x y in
      write_loop pdf rest (x + QRCODE_W + 60) y
  end.

Definition write_to_pdf_file (pdf : list pdf_cmd)
    (qrcode_list : list (string * string)) : list pdf_cmd :=
  write_loop pdf qrcode_list 10 10.

(** [generate_doc]: a new document with its font and first page, the
    entries, and the final [output]. *)
Definition generate_doc (pdf_path : string)
    (qrcode_list : list (string * string)) : list pdf_cmd :=
  let pdf := [SetFont "Arial" EmptyString 8; AddPage] in
  let pdf := write_to_pdf_file pdf qrcode_list in
  pdf ++ [Output pdf_path].

(** *** Reading a trace back: where each entry was placed *)

Record placement : Type := Placement {
  pl_page : nat;      (* number of [add_page] calls before the entry *)
  pl_x : Z;
  pl_y : Z;
  pl_image : string
}.

Fixpoint placements_from (page : nat) (pdf : list pdf_cmd) : list placement :=
  match pdf with
  | [] => []
  | AddPage :: pdf' => placements_from (S page) pdf'
  | Image name x y _ _ :: pdf' =>
      Placement page x y name :: placements_from page pdf'
  | _ :: pdf' => placements_from page pdf'
  end.

Definition placements (pdf : list pdf_cmd) : list placement :=
  placements_from 0 pdf.

(** The number of [add_page] calls, that is the number of pages. *)
Fixpoint page_count (pdf : list pdf_cmd) : nat :=
  match pdf with
  | [] => O
  | AddPage :: pdf' => S (page_count pdf')
  | _ :: pdf' => page_count pdf'
  end.

(** *** Reading a trace back: what is drawn, and where *)

(** An image as [pdf.image] draws it: on the current page, with its
    top-left corner at [(x, y)], scaled to the width and height given. *)
Record drawn_image : Type := DrawnImage {
  di_page : nat;
  di_x : Z;
  di_y : Z;
  di_w : Z;
  di_h : Z;
  di_name : string
}.

(** A text as [pdf.text] writes it: on the current page, on one line
    that starts at abscissa [x] with its baseline at ordinate [y]. *)
Record drawn_text : Type := DrawnText {
  dt_page : nat;
  dt_x : Z;
  dt_y : Z;
  dt_txt : string
}.

Fixpoint drawn_images_from (page : nat) (pdf : list pdf_cmd) : list drawn_image :=
  match pdf with
  | [] => []
  | AddPage :: pdf' => drawn_images_from (S page) pdf'
  | Image name x y w h :: pdf' =>
      DrawnImage page x y w h name :: drawn_images_from page pdf'
  | _ :: pdf' => drawn_images_from page pdf'
  end.

Definition drawn_images (pdf : list pdf_cmd) : list drawn_image :=
  drawn_images_from 0 pdf.

Fixpoint drawn_texts_from (page : nat) (pdf : list pdf_cmd) : list drawn_text :=
  match pdf with
  | [] => []
  | AddPage :: pdf' => drawn_texts_from (S page) pdf'
  | Text x y txt :: pdf' => DrawnText page x y txt :: drawn_texts_from page pdf'
  | _ :: pdf' => drawn_texts_from page pdf'
  end.

Definition drawn_texts (pdf : list pdf_cmd) : list drawn_text :=
  drawn_texts_from 0 pdf.

(** The size in points of the font in use: the last [set_font]. *)
Fixpoint font_size_from (size : Z) (pdf : list pdf_cmd) : Z :=
  match pdf with
  | [] => size
  | SetFont _ _ size' :: pdf' => font_size_from size' pdf'
  | _ :: pdf' => font_size_from size pdf'
  end.

(** FPDF starts a document with a font size of 12 points. *)
Definition font_size (pdf : list pdf_cmd) : Z := font_size_from 12 pdf.

(** The entries of a document: each caption with the image of the same
    rank. *)
Definition doc_entries (pdf : list pdf_cmd) : list (string * string) :=
  zip (dt_txt <$> drawn_texts pdf) (di_name <$> drawn_images pdf).

(** ** Files and the libraries the script calls *)

Definition FREEOTP_BACKUP : string := "freeotp-backup.ab".
Definition APK_NAME : string := "org.fedorahosted.freeotp".
Definition TOKENS_FILE : string := "tokens.xml".
Definition APK_ROOT : string := "apps".
Definition APK_PATH : string :=
  APK_ROOT +:+ "/" +:+ APK_NAME +:+ "/sp/" +:+ TOKENS_FILE.
Definition PDF_FILE : string := "qrcodes.pdf".
Definition IMAGES_DIR : string := "qrcodes".

(** The two files of the work directory the pipeline reads: the content
    of each when it is a regular file, [None] otherwise. *)
Record workdir_files : Type := WorkdirFiles {
  backup_file : option (list Byte.byte);   (* [workdir / FREEOTP_BACKUP] *)
  tokens_file : option (list Byte.byte)    (* [workdir / APK_PATH] *)
}.

(** A [<string>] child of the root element of [tokens.xml]. *)
Record xml_string : Type := XmlString {
  xs_name : option string;     (* [secrets.get("name")] *)
  xs_text : option string      (* [secrets.text] *)
}.

(** The programs and libraries behind the script: their code is not part
    of the repository, the pipeline is stated over any behaviour of them. *)
Record externals : Type := Externals {
  (** [subprocess.call(['adb', 'backup', ...])] on the current backup
      file: the exit status and the backup file afterwards. *)
  adb_backup : option (list Byte.byte) → Z * option (list Byte.byte);
  (** [zlib.decompress]; [None] when it raises [zlib.error]. *)
  zlib_decompress : list Byte.byte → option (list Byte.byte);
  (** [tarfile.open(fileobj=...)] followed by [extract(path)]: the
      content written when the member is a regular file, [Ok None] for a
      member of another kind. *)
  tar_extract : list Byte.byte → string → result (option (list Byte.byte));
  (** [ET.parse(...).getroot().findall("string")]; [None] when the file is
      not well-formed XML. *)
  xml_findall_string : list Byte.byte → option (list xml_string);
  (** [json.loads]; [None] when it raises [JSONDecodeError]. *)
  json_loads : string → option json
}.

(** [fail] *)
Definition fail {A : Type} (msg : string) : result A := Err (SystemExit msg).

(** ** [backup_freeotp] and [extract_tokens_file] *)

Definition backup_freeotp (E : externals) (fs : workdir_files)
    : result workdir_files :=
  let '(ret, backup) := adb_backup E (backup_file fs) in
  let fs' := WorkdirFiles backup (tokens_file fs) in
  if decide (ret ≠ 0) then fail "Backup freeotp failed!"
  else
    match backup with
    | None => Err FileNotFoundError          (* [backup_path.stat()] *)
    | Some content =>
        if decide (length content = 0%nat) then fail "Backup freeotp failed!"
        else Ok fs'
    end.

(** [backup_path.is_file() and backup_path.stat().st_size > 0] *)
Definition has_backup (fs : workdir_files) : bool :=
  match backup_file fs with
  | Some content => bool_decide (0 < length content)%nat
  | None => false
  end.

Definition extract_tokens_file (E : externals) (fs : workdir_files)
    : result workdir_files :=
  fs ← (if has_backup fs then Ok fs else backup_freeotp E fs) ;
  match backup_file fs with
  | None => Err FileNotFoundError            (* [open(backup_path, 'rb')] *)
  | Some content =>
      let data := drop 24 content in         (* [f.seek(24)], [f.read()] *)
      tarstream ← match zlib_decompress E data with
                  | Some t => Ok t
                  | None => Err ZlibError
                  end ;
      member ← tar_extract E tarstream APK_PATH ;
      let fs := WorkdirFiles (backup_file fs) member in
      match tokens_file fs with
      | Some _ => Ok fs
      | None => fail "Tokens file failed to be extracted!"
      end
  end.

(** ** [parse_tokens_from_xml] *)

(** The loop [for secrets in root.findall("string")].  The local variable
    [name] is unbound ([None]) until the first iteration assigns it. *)
Fixpoint parse_loop (E : externals) (elems : list xml_string)
    (tokens : list json) (name : option (option string))
    : result (list json * option (option string)) :=
  match elems with
  | [] => Ok (tokens, name)
  | secrets :: elems' =>
      let name := xs_name secrets in
      if decide (name = Some "tokenOrder"%string) then
        parse_loop E elems' tokens (Some name)
      else
        match xs_text secrets with
        | None => Err TypeError              (* [json.loads(None)] *)
        | Some text =>
            match json_loads E text with
            | None => Err JSONDecodeError
            | Some token => parse_loop E elems' (tokens ++ [token]) (Some name)
            end
        end
  end.

(** What follows the loop: [token_order.append(name)], which reads the
    local variable [name], and [return tokens]. *)
Definition parse_elems (E : externals) (elems : list xml_string)
    : result (list json) :=
  '(tokens, name) ← parse_loop E elems [] None ;
  match name with
  | None => Err (UnboundLocalError "name")
  | Some _ => Ok tokens
  end.

Definition parse_tokens_from_xml (E : externals) (fs : workdir_files)
    : result (list json) :=
  fs ← (match tokens_file fs with
        | Some _ => Ok fs
        | None => extract_tokens_file E fs
        end) ;
  match tokens_file fs with
  | None => Err FileNotFoundError
  | Some content =>
      match xml_findall_string E content with
      | None => Err XMLParseError
      | Some elems => parse_elems E elems
      end
  end.

(** ** The [--qrcodes] branch of [main], up to the written document
    (the final [clean] only removes files). *)

Record run_outcome : Type := RunOutcome {
  run_saved : list saved_image;            (* URIs rendered, in order *)
  run_result : result (list pdf_cmd)       (* the document, or the exception *)
}.

Definition run_qrcodes (E : externals) (workdir : string) (fs : workdir_files)
    : run_outcome :=
  match parse_tokens_from_xml E fs with
  | Err e => RunOutcome [] (Err e)
  | Ok tokens =>
      let g := generate_images (path_join workdir IMAGES_DIR) tokens in
      match gen_result g with
      | Err e => RunOutcome (gen_saved g) (Err e)
      | Ok qrcode_list =>
          let qrcode_list_sorted := sorted_by_caption qrcode_list in
          RunOutcome (gen_saved g)
            (Ok (generate_doc (path_join workdir PDF_FILE) qrcode_list_sorted))
      end
  end.

(** * Vocabulary of the statements *)

(** ** Base32: bytes, whole quanta and the last, partial one *)

Definition is_byte (b : Z) : Prop := 0 ≤ b < 256.

(** A character of the encoding proper: not the pad, and ASCII. *)
Definition is_digit_char (c : ascii) : Prop :=
  c ≠ Base32.pad ∧ (nat_of_ascii c < 128)%nat.

Definition chunk : Type := Z * Z * Z * Z * Z.

Definition chunk_bytes (ch : chunk) : list Z :=
  let '(b0, b1, b2, b3, b4) := ch in [b0; b1; b2; b3; b4].

Definition chunk_value (ch : chunk) : Z :=
  let '(b0, b1, b2, b3, b4) := ch in Base32.from_bytes b0 b1 b2 b3 b4.

Fixpoint flat (cs : list chunk) : list Z :=
  match cs with
  | [] => []
  | ch :: cs' => chunk_bytes ch ++ flat cs'
  end.

Fixpoint enc_chunks (cs : list chunk) : list ascii :=
  match cs with
  | [] => []
  | ch :: cs' => Base32.quantum (chunk_value ch) ++ enc_chunks cs'
  end.

(** The last quantum of an input whose length is no multiple of five:
    some characters of the quantum of the zero-padded bytes, then pads. *)
Definition last_part (tail : list Z) : list ascii :=
  match tail with
  | [b0] =>
      take 2 (Base32.quantum (Base32.from_bytes b0 0 0 0 0))
      ++ replicate 6 Base32.pad
  | [b0; b1] =>
      take 4 (Base32.quantum (Base32.from_bytes b0 b1 0 0 0))
      ++ replicate 4 Base32.pad
  | [b0; b1; b2] =>
      take 5 (Base32.quantum (Base32.from_bytes b0 b1 b2 0 0))
      ++ replicate 3 Base32.pad
  | [b0; b1; b2; b3] =>
      take 7 (Base32.quantum (Base32.from_bytes b0 b1 b2 b3 0))
      ++ replicate 1 Base32.pad
  | _ => []
  end.

(** The unsigned form of a signed byte. *)
Definition unsigned_byte (b : Z) : Z := if b <? 0 then b + 256 else b.

(** ** Issuer and caption *)

(** The value of field [k] when it is present and non-empty. *)
Definition nonempty_field (token : gmap string pyval) (k : string)
    : option pyval :=
  match token !! k with
  | Some v => if truthy v then Some v else None
  | None => None
  end.

Definition issuer_fields : list string :=
  ["issuerInt"; "issuerExt"; "issuerAlt"; "labelAlt"]%string.

(** Issuer resolution as the specification words it: the first non-empty
    field in priority order, [Unknown<i>] when there is none. *)
Definition issuer_spec (i : Z) (token : gmap string pyval) : pyval :=
  default (VStr ("Unknown" +:+ pretty i))
          (head (omap (nonempty_field token) issuer_fields)).

(** Some issuer field is present and non-empty. *)
Definition has_issuer (token : gmap string pyval) : bool :=
  existsb (fun k => truthy_opt (token_get token k)) issuer_fields.

(** The URI format of the specification, from its seven components. *)
Definition otpauth_uri (type caption b32 issuer algorithm digits period : string)
    : string :=
  "otpauth://" +:+ lower type +:+ "/" +:+ quote_str caption +:+ "?" +:+
  join "&" [ "secret=" +:+ quote_str b32;
             "issuer=" +:+ quote_str issuer;
             "algorithm=" +:+ quote_str algorithm;
             "digits=" +:+ quote_str digits;
             "period=" +:+ quote_str period ].

(** The caption when the external issuer counts only if it is present
    and non-empty. *)
Definition caption_nonempty_ext (token : gmap string pyval) (label : string)
    : string :=
  match nonempty_field token "issuerExt" with
  | Some e => py_str e +:+ ":" +:+ label
  | None => label
  end.

(** The caption when every present external issuer counts, empty or not. *)
Definition caption_present_ext (token : gmap string pyval) (label : string)
    : string :=
  match token !! "issuerExt" with
  | Some e => py_str e +:+ ":" +:+ label
  | None => label
  end.

(** The caption and URI expected of the [i]-th record under a caption
    rule, for a record that has its six fields with the types FreeOTP
    writes, an ASCII [type] and a textual issuer. *)
Definition expected_uri
    (caption_rule : gmap string pyval → string → string)
    (i : Z) (token : gmap string pyval) : option (string * string) :=
  match token !! "type", token !! "secret", token !! "label",
        token !! "algo", token !! "digits", token !! "period",
        issuer_spec i token with
  | Some (VStr type), Some (VList secret), Some (VStr label),
    Some (VStr algo), Some digits, Some period, VStr issuer =>
      if is_ascii type then
        let caption := caption_rule token label in
        Some (caption,
              otpauth_uri type caption (secret_to_b32 secret) issuer algo
                (py_str digits) (py_str period))
      else None
  | _, _, _, _, _, _, _ => None
  end.

(** The caption of a token, which does not depend on its position. *)
Definition caption_of (token : json) : result string :=
  d ← as_dict token ;
  label ← label_of d ;
  Ok (py_str label).

Definition caption_or_empty (token : json) : string :=
  match caption_of token with
  | Ok s => s
  | Err _ => EmptyString
  end.

(** The images and the entries of the records [es] (label and URI of
    each), the first of which has index [i]. *)
Definition saved_of (images_path : string) (i : Z) (es : list (pyval * string))
    : list saved_image :=
  imap (fun j e => SavedImage (snd e) (image_file images_path (i + Z.of_nat j))) es.

Definition entries_of (images_path : string) (i : Z) (es : list (pyval * string))
    : list (string * string) :=
  imap (fun j e => (py_str (fst e), image_file images_path (i + Z.of_nat j))) es.

(** The fields [token_uri] reads with [token[...]]. *)
Definition required_fields : list string :=
  ["type"; "secret"; "label"; "algo"; "digits"; "period"]%string.

(** ** Entries of the credential file *)

Definition reserved (e : xml_string) : Prop :=
  xs_name e = Some "tokenOrder"%string.


(** Every entry other than the reserved one decodes. *)
Definition all_json (E : externals) (elems : list xml_string) : Prop :=
  ∀ e, e ∈ elems → ¬ reserved e →
    ∃ text token, xs_text e = Some text ∧ json_loads E text = Some token.

(** ** Order of the captions *)

Definition str_le (s t : string) : Prop := String.leb s t = true.

Definition caption_le (a b : string * string) : Prop :=
  str_le (fst a) (fst b).

(** ** Layout in closed form *)

(** Column, row and page of the [k]-th entry (from 0): two columns, six
    rows, twelve entries a page. *)
Definition slot_x (k : nat) : Z := 10 + 95 * Z.of_nat (k mod 2).
Definition slot_y (k : nat) : Z := 10 + 48 * Z.of_nat ((k mod 12) / 2).
Definition starts_page (k : nat) : bool :=
  bool_decide (0 < k)%nat && bool_decide (k mod 12 = 0)%nat.

Fixpoint layout_cmds (k : nat) (qrcode_list : list (string * string))
    : list pdf_cmd :=
  match qrcode_list with
  | [] => []
  | qc :: rest =>
      (if starts_page k then [AddPage] else [])
      ++ [Image (snd qc) (slot_x k) (slot_y k) QRCODE_W QRCODE_H;
          Text (slot_x k) (slot_y k + QRCODE_H + 2) (fst qc)]
      ++ layout_cmds (S k) rest
  end.

(** The cursor before the [k]-th entry is handled. *)
Definition cursor_at (k : nat) (x y : Z) : Prop :=
  match k with
  | O => x = 10 ∧ y = 10
  | S k' => x = slot_x k' + 95 ∧ y = slot_y k'
  end.

(** Pages started by the loop before it handles the [k]-th entry. *)
Definition pages_before (k : nat) : nat :=
  match k with
  | O => 0
  | S k' => k' / 12
  end%nat.

(** Where the entries of [qrcode_list], numbered from [k], are placed in
    a document that has [base] pages before the loop starts. *)
Definition placed (base k : nat) (qrcode_list : list (string * string))
    : list placement :=
  imap (fun j qc =>
          Placement (base + (k + j) / 12) (slot_x (k + j)) (slot_y (k + j))
            (snd qc)) qrcode_list.

(** Consecutive placements when a row holds [n] entries: after the
    [n]-th entry of a row the next one starts a row, [QRCODE_H + 13]
    lower or, if that exceeds 250, at the top of a new page; any other
    entry is followed by its neighbour on the same row. *)
Definition row_wrap_after (n : nat) (ps : list placement) : Prop :=
  ∀ k p q, ps !! k = Some p → ps !! S k = Some q →
    if decide (S k mod n = 0)%nat then
      if decide (pl_y p + QRCODE_H + 13 > 250) then
        pl_page q = S (pl_page p) ∧ pl_x q = 10 ∧ pl_y q = 10
      else
        pl_page q = pl_page p ∧ pl_x q = 10 ∧ pl_y q = pl_y p + QRCODE_H + 13
    else
      pl_page q = pl_page p ∧ pl_x q = pl_x p + QRCODE_W + 60 ∧ pl_y q = pl_y p.

(** ** Overlap of what is drawn *)

(** The rectangles of two images do not intersect. *)
Definition images_disjoint (p q : drawn_image) : Prop :=
  di_x p + di_w p ≤ di_x q ∨ di_x q + di_w q ≤ di_x p ∨
  di_y p + di_h p ≤ di_y q ∨ di_y q + di_h q ≤ di_y p.

(** The point [(x, y)] lies on the image. *)
Definition on_image (x y : Z) (q : drawn_image) : Prop :=
  di_x q ≤ x ≤ di_x q + di_w q ∧ di_y q ≤ y ≤ di_y q + di_h q.

(** The width of a string in thousandths of the font size, for a font
    whose characters have the widths [cw] (FPDF's table [cw] of the font;
    the tables are data of the library). *)
Fixpoint string_width (cw : ascii → Z) (s : string) : Z :=
  match s with
  | EmptyString => 0
  | String c s' => cw c + string_width cw s'
  end.

(** The text [t], written in a font of [size] points, ends at or before
    the abscissa [x].  Positions are in millimetres, FPDF's default
    unit, and a point is 25.4/72 mm: the text is
    [string_width * size * 25.4 / 72000] mm wide. *)
Definition text_ends_by (cw : ascii → Z) (size : Z) (t : drawn_text) (x : Z)
    : Prop :=
  string_width cw (dt_txt t) * size * 254 ≤ (x - dt_x t) * 720000.

(** Two texts do not run into each other: they are on different lines,
    or one ends where the other starts, or before. *)
Definition texts_disjoint (cw : ascii → Z) (size : Z) (t t' : drawn_text)
    : Prop :=
  dt_y t ≠ dt_y t' ∨ text_ends_by cw size t (dt_x t') ∨
  text_ends_by cw size t' (dt_x t).

(** No two entries of a page overlap: neither their images nor their
    captions. *)
Definition entries_apart (cw : ascii → Z) (pdf : list pdf_cmd) : Prop :=
  (∀ i j p q, i ≠ j → drawn_images pdf !! i = Some p →
     drawn_images pdf !! j = Some q → di_page p = di_page q →
     images_disjoint p q) ∧
  (∀ i j t t', i ≠ j → drawn_texts pdf !! i = Some t →
     drawn_texts pdf !! j = Some t' → dt_page t = dt_page t' →
     texts_disjoint cw (font_size pdf) t t').

(** The images and captions of the entries of [qrcode_list], numbered
    from [k], in a document that has [base] pages before the loop. *)
Definition images_at (base k : nat) (qrcode_list : list (string * string))
    : list drawn_image :=
  imap (fun j qc =>
          DrawnImage (base + (k + j) / 12) (slot_x (k + j)) (slot_y (k + j))
            QRCODE_W QRCODE_H (snd qc)) qrcode_list.

Definition texts_at (base k : nat) (qrcode_list : list (string * string))
    : list drawn_text :=
  imap (fun j qc =>
          DrawnText (base + (k + j) / 12) (slot_x (k + j))
            (slot_y (k + j) + QRCODE_H + 2) (fst qc)) qrcode_list.

(** * Data of the examples *)

(** A record as FreeOTP writes it, without any issuer field. *)
Definition tok_alice : gmap string pyval :=
  list_to_map
    [ ("type"%string, VStr "TOTP"); ("secret"%string, VList [1; 2; 3]);
      ("label"%string, VStr "alice"); ("algo"%string, VStr "SHA1");
      ("digits"%string, VInt 6); ("period"%string, VInt 30) ].

Definition tok_acme : gmap string pyval :=
  <["issuerExt"%string := VStr "Acme"]>
    (<["label"%string := VStr "alice@x.com"]> tok_alice).

Definition tok_zed : gmap string pyval :=
  <["label"%string := VStr "Zed"]> tok_alice.

(** FreeOTP stores an empty external issuer for a label without prefix. *)
Definition tok_empty_ext : gmap string pyval :=
  <["issuerExt"%string := VStr EmptyString]> tok_alice.

Definition tok_no_digits : gmap string pyval := delete "digits"%string tok_alice.

Definition ten_entries : list (string * string) :=
  (fun n : nat => ("token" +:+ pretty n, image_file "qrcodes" (Z.of_nat n)))
    <$> seq 0 10.

(** The text of a JSON object, with [q] for the quotation mark: the
    mark itself in the text handed to [json.loads], its entity in the
    XML file. *)
Definition double_quote : string := String (ascii_of_nat 34) EmptyString.

Definition json_key (q k : string) : string := q +:+ k +:+ q +:+ ":".

Definition json_string (q s : string) : string := q +:+ s +:+ q.

Definition alice_json (q : string) : string :=
  "{" +:+
  join "," [ json_key q "algo" +:+ json_string q "SHA1";
             json_key q "digits" +:+ "6";
             json_key q "label" +:+ json_string q "alice";
             json_key q "period" +:+ "30";
             json_key q "secret" +:+ "[1,2,3]";
             json_key q "type" +:+ json_string q "TOTP" ] +:+
  "}".

Definition no_digits_json (q : string) : string :=
  "{" +:+
  join "," [ json_key q "algo" +:+ json_string q "SHA1";
             json_key q "label" +:+ json_string q "alice";
             json_key q "period" +:+ "30";
             json_key q "secret" +:+ "[1,2,3]";
             json_key q "type" +:+ json_string q "TOTP" ] +:+
  "}".

Definition xml_entry (name text : string) : string :=
  "<string name=" +:+ json_string double_quote name +:+ ">" +:+ text +:+
  "</string>".

(** A credential file with a complete record and one without [digits]. *)
Definition demo_tokens_xml : list Byte.byte :=
  String.list_byte_of_string
    ("<map>" +:+ xml_entry "alice" (alice_json "&quot;") +:+
     xml_entry "bob" (no_digits_json "&quot;") +:+ "</map>").

Definition demo_elems : list xml_string :=
  [ XmlString (Some "alice"%string) (Some (alice_json double_quote));
    XmlString (Some "bob"%string) (Some (no_digits_json double_quote)) ].

(** A credential file without any entry. *)
Definition empty_tokens_xml : list Byte.byte :=
  String.list_byte_of_string "<map />".

(** The 24 bytes that start an Android backup. *)
Definition backup_header : list Byte.byte :=
  let nl := String (ascii_of_nat 10) EmptyString in
  String.list_byte_of_string
    ("ANDROID BACKUP" +:+ nl +:+ "5" +:+ nl +:+ "1" +:+ nl +:+ "none" +:+ nl).

(** [zlib.compress(b'')] *)
Definition zlib_of_empty : list Byte.byte :=
  [Byte.x78; Byte.x9c; Byte.x03; Byte.x00; Byte.x00; Byte.x00; Byte.x00;
   Byte.x01].

(** A backup whose payload is no compressed stream, and one whose
    payload decompresses to nothing. *)
Definition corrupt_backup : list Byte.byte :=
  backup_header ++ String.list_byte_of_string "not a zlib stream".

Definition hollow_backup : list Byte.byte := backup_header ++ zlib_of_empty.

#[global] Instance byte_eq_dec : EqDecision Byte.byte := Byte.byte_eq_dec.

(** The libraries on the inputs of the examples: [adb] finds no device;
    the only compressed stream is [zlib_of_empty]; no input is a tar
    archive; the XML files are the two above; the JSON texts are the
    two records above. *)
Definition demo_externals : externals :=
  {| adb_backup := fun backup => (1, backup);
     zlib_decompress := fun data =>
       if decide (data = zlib_of_empty) then Some [] else None;
     tar_extract := fun _ _ => Err TarReadError;
     xml_findall_string := fun content =>
       if decide (content = demo_tokens_xml) then Some demo_elems
       else if decide (content = empty_tokens_xml) then Some []
       else None;
     json_loads := fun text =>
       if decide (text = alice_json double_quote) then Some (JDict tok_alice)
       else if decide (text = no_digits_json double_quote)
            then Some (JDict tok_no_digits)
       else None |}.

Definition demo_files : workdir_files :=
  WorkdirFiles None (Some demo_tokens_xml).

(** Two complete records, captioned [Zed] and [Acme:alice@x.com]. *)
Definition zed_json (q : string) : string :=
  "{" +:+
  join "," [ json_key q "algo" +:+ json_string q "SHA1";
             json_key q "digits" +:+ "6";
             json_key q "label" +:+ json_string q "Zed";
             json_key q "period" +:+ "30";
             json_key q "secret" +:+ "[1,2,3]";
             json_key q "type" +:+ json_string q "TOTP" ] +:+
  "}".

Definition acme_json (q : string) : string :=
  "{" +:+
  join "," [ json_key q "algo" +:+ json_string q "SHA1";
             json_key q "digits" +:+ "6";
             json_key q "issuerExt" +:+ json_string q "Acme";
             json_key q "label" +:+ json_string q "alice@x.com";
             json_key q "period" +:+ "30";
             json_key q "secret" +:+ "[1,2,3]";
             json_key q "type" +:+ json_string q "TOTP" ] +:+
  "}".

(** Two credential files with these records, in the two orders. *)
Definition zed_acme_xml : list Byte.byte :=
  String.list_byte_of_string
    ("<map>" +:+ xml_entry "Zed" (zed_json "&quot;") +:+
     xml_entry "Acme:alice@x.com" (acme_json "&quot;") +:+ "</map>").

Definition acme_zed_xml : list Byte.byte :=
  String.list_byte_of_string
    ("<map>" +:+ xml_entry "Acme:alice@x.com" (acme_json "&quot;") +:+
     xml_entry "Zed" (zed_json "&quot;") +:+ "</map>").

Definition zed_elem : xml_string :=
  XmlString (Some "Zed"%string) (Some (zed_json double_quote)).

Definition acme_elem : xml_string :=
  XmlString (Some "Acme:alice@x.com"%string) (Some (acme_json double_quote)).

(** The libraries of [demo_externals], which also read these two files
    and their records. *)
Definition order_externals : externals :=
  {| adb_backup := adb_backup demo_externals;
     zlib_decompress := zlib_decompress demo_externals;
     tar_extract := tar_extract demo_externals;
     xml_findall_string := fun content =>
       if decide (content = zed_acme_xml) then Some [zed_elem; acme_elem]
       else if decide (content = acme_zed_xml) then Some [acme_elem; zed_elem]
       else xml_findall_string demo_externals content;
     json_loads := fun text =>
       if decide (text = zed_json double_quote) then Some (JDict tok_zed)
       else if decide (text = acme_json double_quote) then Some (JDict tok_acme)
       else json_loads demo_externals text |}.

(** A caption of sixty [W], and two entries of one row. *)
Definition wide_caption : string :=
  string_of_list_ascii (replicate 60 "W"%char).

Definition wide_entries : list (string * string) :=
  [ (wide_caption, "qrcodes/0.png"%string); ("Zed"%string, "qrcodes/1.png"%string) ].

(** ** Further vocabulary *)

(** ** Shape of an encoded secret *)

(** Number of pad characters after the encoding of [n] bytes. *)
Definition pad_count (n : nat) : nat :=
  match (n mod 5)%nat with
  | 0 => 0
  | 1 => 6
  | 2 => 4
  | 3 => 3
  | _ => 1
  end%nat.


(** The percent-encoding of one pad character. *)
Definition quoted_pad : string := "%3D".

Fixpoint repeat_string (n : nat) (s : string) : string :=
  match n with
  | O => EmptyString
  | S n' => s +:+ repeat_string n' s
  end.

(** The keys of a record that [token_uri] looks up. *)
Definition used_keys : list string := issuer_fields ++ required_fields.

(** ** Entries and libraries *)

#[global] Instance reserved_dec (e : xml_string) : Decision (reserved e).
Proof. unfold reserved. apply _. Defined.

(** The entry [e] holds the JSON text of [token]. *)
Definition decodes_to (E : externals) (e : xml_string) (token : json) : Prop :=
  ∃ text, xs_text e = Some text ∧ json_loads E text = Some token.

(** The same libraries with another [adb]. *)
Definition with_adb
    (adb : option (list Byte.byte) → Z * option (list Byte.byte))
    (E : externals) : externals :=
  {| adb_backup := adb;
     zlib_decompress := zlib_decompress E;
     tar_extract := tar_extract E;
     xml_findall_string := xml_findall_string E;
     json_loads := json_loads E |}.
(** ** Data of further examples *)

(** A credential file with the reserved entry and one complete record. *)
Definition good_tokens_xml : list Byte.byte :=
  String.list_byte_of_string
    ("<map>" +:+
     xml_entry "tokenOrder" ("[" +:+ json_string "&quot;" "alice" +:+ "]") +:+
     xml_entry "alice" (alice_json "&quot;") +:+ "</map>").

Definition good_elems : list xml_string :=
  [ XmlString (Some "tokenOrder"%string)
      (Some ("[" +:+ json_string double_quote "alice" +:+ "]"));
    XmlString (Some "alice"%string) (Some (alice_json double_quote)) ].

(** Stand-ins for the libraries, for runs that succeed: [adb] delivers a
    backup, decompression is the identity and an archive is its only
    member.  They make the hypotheses of the statements true on small
    data; the statements hold for every behaviour of the libraries. *)
Definition toy_externals : externals :=
  {| adb_backup := fun _ => (0, Some (backup_header ++ good_tokens_xml));
     zlib_decompress := fun data => Some data;
     tar_extract := fun stream _ =>
       match stream with
       | [] => Err TarReadError
       | _ => Ok (Some stream)
       end;
     xml_findall_string := fun content =>
       if decide (content = good_tokens_xml) then Some good_elems
       else xml_findall_string demo_externals content;
     json_loads := json_loads demo_externals |}.

(** ** The files of the work directory: [remove_path], [clean],
    [create_dir_if_not_exists]

    A path is the list of its components from the root; the file system
    maps the paths that exist to files and directories, and the root
    always is a directory.  Permissions and symbolic links are left out,
    and so are the messages the functions print. *)

Module Disk.

Inductive node : Type :=
  | File (content : list Byte.byte)
  | Dir.

(** What is at path [p]. *)
Definition lookup_node (d : gmap (list string) node) (p : list string)
    : option node :=
  match p with
  | [] => Some Dir
  | _ => d !! p
  end.

(** [p.is_file()] and [p.is_dir()] *)
Definition is_file (d : gmap (list string) node) (p : list string) : bool :=
  match lookup_node d p with
  | Some (File _) => true
  | _ => false
  end.

Definition is_dir (d : gmap (list string) node) (p : list string) : bool :=
  match lookup_node d p with
  | Some Dir => true
  | _ => false
  end.

(** [p.unlink()] on a file. *)
Definition unlink (d : gmap (list string) node) (p : list string)
    : gmap (list string) node :=
  delete p d.

(** [shutil.rmtree(p)] on a directory: [p] and all that is below it. *)
Definition rmtree (d : gmap (list string) node) (p : list string)
    : gmap (list string) node :=
  filter (fun kv => ¬ p `prefix_of` kv.1) d.

(** [remove_path(workdir, f)] *)
Definition remove_path (workdir f : list string) (d : gmap (list string) node)
    : gmap (list string) node :=
  let path := workdir ++ f in
  if is_file d path then unlink d path
  else if is_dir d path then rmtree d path
  else d.

(** [clean(workdir)] *)
Definition clean (workdir : list string) (d : gmap (list string) node)
    : gmap (list string) node :=
  let d := remove_path workdir [FREEOTP_BACKUP] d in
  let d := remove_path workdir [APK_ROOT] d in
  remove_path workdir [IMAGES_DIR] d.

(** The exceptions of [os.mkdir]. *)
Inductive os_error : Type :=
  | FileExistsError
  | NoSuchFileError          (* [FileNotFoundError] *)
  | NotADirectoryError.

(** [p.parent] *)
Definition parent (p : list string) : list string := removelast p.

(** [p.mkdir()] *)
Definition mkdir (d : gmap (list string) node) (p : list string)
    : os_error + gmap (list string) node :=
  match lookup_node d p with
  | Some _ => inl FileExistsError
  | None =>
      match lookup_node d (parent p) with
      | None => inl NoSuchFileError
      | Some (File _) => inl NotADirectoryError
      | Some Dir => inr (<[p := Dir]> d)
      end
  end.

(** [create_dir_if_not_exists(p)] *)
Definition create_dir_if_not_exists (d : gmap (list string) node)
    (p : list string) : os_error + gmap (list string) node :=
  if negb (is_dir d p) then mkdir d p else inr d.

(** The three paths [clean] removes. *)
Definition artifacts (workdir : list string) : list (list string) :=
  [workdir ++ [FREEOTP_BACKUP]; workdir ++ [APK_ROOT]; workdir ++ [IMAGES_DIR]].

(** Nothing is at [p]. *)
Definition absent (d : gmap (list string) node) (p : list string) : Prop :=
  is_file d p = false ∧ is_dir d p = false.

End Disk.

(** A work directory after a run that kept its files, with a file of the
    user beside them. *)
Definition demo_disk : gmap (list string) Disk.node :=
  list_to_map
    [ (["work"], Disk.Dir);
      (["work"; "freeotp-backup.ab"], Disk.File zlib_of_empty);
      (["work"; "apps"], Disk.Dir);
      (["work"; "apps"; "org.fedorahosted.freeotp"], Disk.Dir);
      (["work"; "apps"; "org.fedorahosted.freeotp"; "sp"], Disk.Dir);
      (["work"; "apps"; "org.fedorahosted.freeotp"; "sp"; "tokens.xml"],
       Disk.File []);
      (["work"; "qrcodes"], Disk.Dir);
      (["work"; "qrcodes"; "0.png"], Disk.File []);
      (["work"; "qrcodes.pdf"], Disk.File []);
      (["work"; "notes.txt"], Disk.File []) ]%string.

(** ** The two files of the pipeline, read from the file system *)

(** The content of the regular file at [p], if there is one. *)
Definition read_file (d : gmap (list string) Disk.node) (p : list string)
    : option (list Byte.byte) :=
  match Disk.lookup_node d p with
  | Some (Disk.File content) => Some content
  | _ => None
  end.

(** [workdir / FREEOTP_BACKUP] and [workdir / APK_PATH] *)
Definition files_of (workdir : list string) (d : gmap (list string) Disk.node)
    : workdir_files :=
  WorkdirFiles
    (read_file d (workdir ++ [FREEOTP_BACKUP]))
    (read_file d (workdir ++ [APK_ROOT; APK_NAME; "sp"%string; TOKENS_FILE])).

(** The file system is a tree: whatever exists lies in directories. *)
Definition is_tree (d : gmap (list string) Disk.node) : Prop :=
  ∀ q x n, d !! q = Some x → (n < length q)%nat →
           Disk.is_dir d (take n q) = true.

(** ** Paths and their text *)

(** A string without slash. *)
Definition slash_free (s : string) : Prop :=
  Forall (fun c => c ≠ "/"%char) (list_ascii_of_string s).



(** The characters of a number. *)
Definition is_number_char (c : ascii) : Prop :=
  c ∈ list_ascii_of_string "0123456789-".

(** * Properties *)

(** ** Base32 *)


Module Base32Facts.
Import Base32.

Lemma tab_table :
  forallb (fun n => let v := Z.of_nat n in
     bool_decide (rev (tab v) = Some v) &&
     negb (Ascii.eqb (tab v) pad) &&
     (nat_of_ascii (tab v) <? 128)%nat) (seq 0 32) = true.
Proof. vm_compute. reflexivity. Qed.

Lemma tab_facts v :
  0 ≤ v < 32 →
  rev (tab v) = Some v ∧ tab v ≠ pad ∧ (nat_of_ascii (tab v) < 128)%nat.
Proof.
  intros Hv.
  pose proof tab_table as H.
  rewrite forallb_forall in H.
  specialize (H (Z.to_nat v)).
  rewrite Z2Nat.id in H by lia.
  assert (Hin : In (Z.to_nat v) (seq 0 32)) by (apply in_seq; lia).
  apply H in Hin. cbv zeta in Hin.
  apply andb_prop in Hin as [Hin H3]. apply andb_prop in Hin as [H1 H2].
  apply bool_decide_eq_true in H1.
  apply negb_true_iff in H2. apply Ascii.eqb_neq in H2.
  apply Nat.ltb_lt in H3. done.
Qed.

Lemma land31 a : Z.land a 31 = a mod 32.
Proof. change 31 with (Z.ones 5). by rewrite Z.land_ones. Qed.

Lemma land255 a : Z.land a 255 = a mod 256.
Proof. change 255 with (Z.ones 8). by rewrite Z.land_ones. Qed.

Lemma land31_bound a : 0 ≤ Z.land a 31 < 32.
Proof. rewrite land31. apply Z.mod_pos_bound. lia. Qed.

Lemma rev_tab_land a : rev (tab (Z.land a 31)) = Some (Z.land a 31).
Proof. apply tab_facts, land31_bound. Qed.

Lemma quantum_chars c : Forall is_digit_char (quantum c).
Proof.
  unfold quantum.
  repeat (apply Forall_cons; split;
          [split; apply tab_facts, land31_bound|]).
  apply Forall_nil_2.
Qed.

Lemma from_bytes_bound b0 b1 b2 b3 b4 :
  is_byte b0 → is_byte b1 → is_byte b2 → is_byte b3 → is_byte b4 →
  0 ≤ from_bytes b0 b1 b2 b3 b4 < 2 ^ 40.
Proof. unfold is_byte, from_bytes. lia. Qed.

Ltac to_div :=
  rewrite ?Z.shiftl_mul_pow2, ?land31, ?land255, ?Z.shiftr_div_pow2 by lia.

(** The characters of a quantum, read back, give the quantum. *)
Lemma accumulate_quantum c :
  0 ≤ c < 2 ^ 40 → accumulate 0 (quantum c) = Ok c.
Proof.
  intros Hc. unfold quantum. cbn [accumulate].
  rewrite !rev_tab_land. f_equal. to_div.
  Z.div_mod_to_equations; lia.
Qed.

(** Reading back the first [m] characters gives the top [5 m] bits. *)
Lemma accumulate_take (m : nat) c :
  0 ≤ c < 2 ^ 40 → (m ≤ 8)%nat →
  accumulate 0 (take m (quantum c)) = Ok (c / 2 ^ (40 - 5 * Z.of_nat m)).
Proof.
  intros Hc Hm. unfold quantum.
  do 9 (destruct m as [|m]; [cbn [take accumulate]; rewrite ?rev_tab_land; f_equal;
     to_div; cbn [Z.of_nat Pos.of_succ_nat Pos.succ Z.mul Pos.mul Z.sub Z.add Z.opp Z.pos_sub Pos.pred_double
                  Pos.add]; Z.div_mod_to_equations; lia|]).
  lia.
Qed.

Lemma to_bytes5_from_bytes b0 b1 b2 b3 b4 :
  is_byte b0 → is_byte b1 → is_byte b2 → is_byte b3 → is_byte b4 →
  to_bytes5 (from_bytes b0 b1 b2 b3 b4) = Ok [b0; b1; b2; b3; b4].
Proof.
  intros H0 H1 H2 H3 H4.
  pose proof (from_bytes_bound _ _ _ _ _ H0 H1 H2 H3 H4) as Hc.
  unfold to_bytes5. rewrite decide_True by done.
  unfold is_byte, from_bytes in *. to_div.
  repeat f_equal; Z.div_mod_to_equations; lia.
Qed.



Lemma list_ind5 {A} (P : list A → Prop) :
  (∀ l, (length l < 5)%nat → P l) →
  (∀ a b c d e l, P l → P (a :: b :: c :: d :: e :: l)) →
  ∀ l, P l.
Proof.
  intros Hsmall Hstep.
  fix IH 1. intros [|a [|b [|c [|d [|e l]]]]];
    try (apply Hsmall; simpl; lia).
  apply Hstep, IH.
Qed.

Lemma split_chunks (s : list Z) :
  ∃ cs tail, s = flat cs ++ tail ∧ (length tail < 5)%nat.
Proof.
  induction s as [l Hl | a b c d e l (cs & tail & -> & Hl)] using list_ind5.
  - by exists [], l.
  - by exists ((a, b, c, d, e) :: cs), tail.
Qed.

Lemma length_flat cs : length (flat cs) = (5 * length cs)%nat.
Proof. induction cs as [|[[[[??]?]?]?] cs IH]; simpl; lia. Qed.

Lemma length_enc_chunks cs : length (enc_chunks cs) = (8 * length cs)%nat.
Proof. induction cs as [|ch cs IH]; simpl; lia. Qed.

Lemma enc_chunks_chars cs : Forall is_digit_char (enc_chunks cs).
Proof.
  induction cs as [|ch cs IH]; cbn [enc_chunks]; [constructor|].
  apply Forall_app; split; [apply quantum_chars | done].
Qed.

Lemma encode_quanta_flat cs rest :
  encode_quanta (flat cs ++ rest) = enc_chunks cs ++ encode_quanta rest.
Proof.
  induction cs as [|[[[[??]?]?]?] cs IH]; [done|].
  cbn [flat chunk_bytes enc_chunks chunk_value app encode_quanta].
  by rewrite IH, <-app_assoc.
Qed.

Lemma Forall_flat_cons ch cs :
  Forall is_byte (flat (ch :: cs)) →
  Forall is_byte (chunk_bytes ch) ∧ Forall is_byte (flat cs).
Proof. simpl. apply Forall_app. Qed.

Lemma chunk_roundtrip ch :
  Forall is_byte (chunk_bytes ch) →
  accumulate 0 (quantum (chunk_value ch)) = Ok (chunk_value ch) ∧
  to_bytes5 (chunk_value ch) = Ok (chunk_bytes ch).
Proof.
  destruct ch as [[[[b0 b1] b2] b3] b4]. cbn [chunk_bytes chunk_value].
  intros H. repeat (apply Forall_cons in H as [? H]).
  split.
  - by apply accumulate_quantum, from_bytes_bound.
  - by apply to_bytes5_from_bytes.
Qed.

(** One iteration of the decoding loop, on a part [q] of at most eight
    characters followed by [rest] (empty unless [q] has all eight). *)
Lemma decode_quanta_step q rest fuel decoded acc :
  q ≠ [] → (length q = 8%nat ∨ rest = []) → (length q ≤ 8)%nat →
  decode_quanta (S fuel) (q ++ rest) decoded acc
  = (acc' ← accumulate 0 q ;
     bs ← to_bytes5 acc' ;
     decode_quanta fuel rest (decoded ++ bs) acc').
Proof.
  intros Hne Hq Hle.
  assert (Htake : take 8 (q ++ rest) = q).
  { destruct Hq as [Hq | ->].
    - by apply take_app_length'.
    - rewrite app_nil_r. by apply take_ge. }
  assert (Hdrop : drop 8 (q ++ rest) = rest).
  { destruct Hq as [Hq | ->].
    - by apply drop_app_length'.
    - rewrite app_nil_r. by apply drop_ge. }
  cbn [decode_quanta]. rewrite Htake, Hdrop.
  destruct q; [done|]. reflexivity.
Qed.

(** The decoding loop consumes the whole quanta one by one. *)
Lemma decode_quanta_chunks cs rest fuel decoded acc :
  Forall is_byte (flat cs) →
  ∃ acc',
    decode_quanta (length cs + fuel) (enc_chunks cs ++ rest) decoded acc
    = decode_quanta fuel rest (decoded ++ flat cs) acc'.
Proof.
  revert decoded acc.
  induction cs as [|ch cs IH]; intros decoded acc Hb.
  - exists acc. simpl. by rewrite app_nil_r.
  - apply Forall_flat_cons in Hb as [Hch Hcs].
    destruct (chunk_roundtrip ch Hch) as [Hacc Hbytes].
    destruct (IH (decoded ++ chunk_bytes ch) (chunk_value ch) Hcs) as [acc' IH'].
    exists acc'.
    cbn [length Nat.add enc_chunks]. rewrite <-app_assoc.
    rewrite decode_quanta_step by (by unfold quantum; auto).
    rewrite Hacc. cbn [mbind result_bind]. rewrite Hbytes.
    cbn [mbind result_bind]. rewrite IH'. cbn [flat]. by rewrite <-app_assoc.
Qed.

Lemma rstrip_pad_digits s : Forall is_digit_char s → rstrip_pad s = s.
Proof.
  unfold rstrip_pad.
  induction 1 as [|c s [Hc _] _ IH]; [done|].
  cbn [foldr]. rewrite IH.
  destruct s; [|done].
  by apply Ascii.eqb_neq in Hc as ->.
Qed.

Lemma rstrip_pad_app s k :
  Forall is_digit_char s → rstrip_pad (s ++ replicate k pad) = s.
Proof.
  intros Hs. rewrite <-(rstrip_pad_digits s Hs) at 2.
  unfold rstrip_pad. rewrite foldr_app. f_equal.
  induction k as [|k IH]; [done|]. cbn [replicate foldr]. by rewrite IH.
Qed.

Lemma no_high_char s k :
  Forall is_digit_char s →
  existsb (fun c => 128 <=? Z.of_nat (nat_of_ascii c)) (s ++ replicate k pad)
  = false.
Proof.
  intros Hs. rewrite existsb_app. apply orb_false_iff. split.
  - induction Hs as [|c s [_ Hc] _ IH]; [done|].
    cbn [existsb]. rewrite IH, orb_false_r. apply Z.leb_gt. lia.
  - induction k as [|k IH]; [done|]. cbn [replicate existsb]. by rewrite IH.
Qed.


Lemma to_bytes5_ok acc :
  0 ≤ acc < 2 ^ 40 → ∃ bs, to_bytes5 acc = Ok bs ∧ length bs = 5%nat.
Proof. intros H. unfold to_bytes5. rewrite decide_True by done. eauto. Qed.

Lemma length_mod5 (cs : list chunk) (tail : list Z) :
  (length tail < 5)%nat →
  (length (flat cs ++ tail) mod 5)%nat = length tail.
Proof.
  intros H. rewrite length_app, length_flat, Nat.add_comm, Nat.mul_comm.
  rewrite Nat.Div0.mod_add. by apply Nat.mod_small.
Qed.

Lemma set_tail_pad_app (k : nat) (l q : list ascii) :
  length q = 8%nat → (k ≤ 8)%nat →
  set_tail_pad k (l ++ q) = l ++ take (8 - k) q ++ replicate k pad.
Proof.
  intros Hq Hk. unfold set_tail_pad.
  rewrite length_app, Hq.
  replace (length l + 8 - k)%nat with (length l + (8 - k))%nat by lia.
  by rewrite take_app_add, <-app_assoc.
Qed.

Lemma b32encode_shape cs tail :
  (length tail < 5)%nat →
  b32encode (flat cs ++ tail) = enc_chunks cs ++ last_part tail.
Proof.
  intros Hlen. unfold b32encode. rewrite length_mod5 by done.
  destruct tail as [|b0 [|b1 [|b2 [|b3 [|b4 tail]]]]];
    cbn [length] in *; try lia.
  - rewrite decide_True by done. rewrite app_nil_r.
    rewrite <-(app_nil_r (flat cs)) at 1.
    by rewrite encode_quanta_flat.
  - rewrite decide_False by done. rewrite <-app_assoc, encode_quanta_flat.
    cbn [app replicate Nat.sub encode_quanta]. rewrite app_nil_r.
    by rewrite set_tail_pad_app by (done || lia).
  - rewrite decide_False by done. rewrite <-app_assoc, encode_quanta_flat.
    cbn [app replicate Nat.sub encode_quanta]. rewrite app_nil_r.
    by rewrite set_tail_pad_app by (done || lia).
  - rewrite decide_False by done. rewrite <-app_assoc, encode_quanta_flat.
    cbn [app replicate Nat.sub encode_quanta]. rewrite app_nil_r.
    by rewrite set_tail_pad_app by (done || lia).
  - rewrite decide_False by done. rewrite <-app_assoc, encode_quanta_flat.
    cbn [app replicate Nat.sub encode_quanta]. rewrite app_nil_r.
    by rewrite set_tail_pad_app by (done || lia).
Qed.

(** Decoding whole quanta only. *)
Lemma b32decode_whole cs :
  Forall is_byte (flat cs) → b32decode (enc_chunks cs) = Ok (flat cs).
Proof.
  intros Hb. unfold b32decode.
  pose proof (enc_chunks_chars cs) as Hch.
  pose proof (no_high_char _ 0 Hch) as Hhigh.
  cbn [replicate] in Hhigh. rewrite app_nil_r in Hhigh. rewrite Hhigh.
  rewrite length_enc_chunks, Nat.mul_comm, Nat.Div0.mod_mul.
  rewrite decide_False by auto.
  rewrite rstrip_pad_digits, length_enc_chunks by done.
  replace (length cs * 8 - 8 * length cs)%nat with 0%nat by lia.
  replace (8 * length cs)%nat with (length cs + 7 * length cs)%nat by lia.
  rewrite <-(app_nil_r (enc_chunks cs)).
  destruct (decode_quanta_chunks cs [] (7 * length cs) [] 0 Hb) as [acc' ->].
  cbn [app]. by destruct (7 * length cs)%nat.
Qed.

(** Decoding whole quanta followed by a partial one. *)
Lemma b32decode_partial cs c (m k : nat) (bs zs : list Z) :
  Forall is_byte (flat cs) → 0 ≤ c < 2 ^ 40 →
  (m + k = 8)%nat → k = 1%nat ∨ k = 3%nat ∨ k = 4%nat ∨ k = 6%nat →
  c mod 2 ^ (5 * Z.of_nat k) = 0 →
  to_bytes5 c = Ok (bs ++ zs) →
  length bs = Z.to_nat ((43 - 5 * Z.of_nat k) / 8) →
  b32decode (enc_chunks cs ++ take m (quantum c) ++ replicate k pad)
  = Ok (flat cs ++ bs).
Proof.
  intros Hb Hc Hmk Hk Hmod Hbytes Hlen. unfold b32decode.
  assert (Hm : (0 < m ≤ 8)%nat) by lia.
  assert (Hq : length (quantum c) = 8%nat) by done.
  set (q := take m (quantum c)).
  assert (Hqlen : length q = m) by (unfold q; rewrite length_take; lia).
  assert (Hch : Forall is_digit_char (enc_chunks cs ++ q)).
  { apply Forall_app. split; [apply enc_chunks_chars|].
    apply Forall_take, quantum_chars. }
  rewrite app_assoc.
  rewrite no_high_char by done.
  rewrite !length_app, length_enc_chunks, length_replicate, Hqlen.
  replace (8 * length cs + m + k)%nat with ((length cs + 1) * 8)%nat by lia.
  rewrite Nat.Div0.mod_mul. rewrite decide_False by auto.
  rewrite rstrip_pad_app by done.
  rewrite !length_app, length_enc_chunks, Hqlen.
  replace ((length cs + 1) * 8 - (8 * length cs + m))%nat with k by lia.
  replace (8 * length cs + m)%nat
    with (length cs + S (7 * length cs + m - 1))%nat by lia.
  destruct (decode_quanta_chunks cs q (S (7 * length cs + m - 1)) [] 0 Hb)
    as [acc' ->].
  cbn [app]. rewrite <-(app_nil_r q) at 1.
  rewrite decode_quanta_step; [|destruct q; [simpl in *; lia|done]|auto|lia].
  unfold q. rewrite accumulate_take by (done || lia).
  cbn [mbind result_bind].
  assert (Hk5 : 40 - 5 * Z.of_nat m = 5 * Z.of_nat k) by lia.
  rewrite Hk5.
  set (acc := c / 2 ^ (5 * Z.of_nat k)).
  assert (Hacc : 0 ≤ acc < 2 ^ 40).
  { unfold acc. split; [apply Z.div_pos; lia|].
    apply Z.div_lt_upper_bound; [lia|].
    assert (1 ≤ 2 ^ (5 * Z.of_nat k)) by (apply Z.pow_le_mono_r with (b := 0); lia || apply Z.le_refl).
    nia. }
  destruct (to_bytes5_ok acc Hacc) as (bs' & -> & Hbs').
  cbn [mbind result_bind].
  assert (Hdq : ∀ fuel, decode_quanta fuel [] (flat cs ++ bs') acc
                        = Ok (flat cs ++ bs', acc)) by (by intros []).
  rewrite Hdq. cbn [mbind result_bind].
  assert (Hin : bool_decide (k ∈ [0; 1; 3; 4; 6]%nat) = true)
    by (by destruct Hk as [-> | [-> | [-> | ->]]]).
  rewrite Hin. cbn [negb].
  assert (Hshift : Z.shiftl acc (5 * Z.of_nat k) = c).
  { rewrite Z.shiftl_mul_pow2 by lia. unfold acc.
    pose proof (Z_div_mod_eq_full c (2 ^ (5 * Z.of_nat k))) as Hdm.
    rewrite Hmod in Hdm. lia. }
  rewrite Hshift, Hbytes. cbn [mbind result_bind].
  destruct k as [|k']; [lia|].
  destruct (flat cs ++ bs') as [|x l] eqn:Heq.
  { apply (f_equal length) in Heq. rewrite length_app in Heq. simpl in Heq. lia. }
  rewrite <-Heq. f_equal.
  rewrite length_app, Hbs'.
  replace (length (flat cs) + 5 - 5)%nat with (length (flat cs)) by lia.
  rewrite take_app_length. f_equal.
  rewrite <-Hlen. by rewrite take_app_length.
Qed.


Theorem b32decode_b32encode (s : list Z) :
  Forall is_byte s → b32decode (b32encode s) = Ok s.
Proof.
  intros Hb.
  destruct (split_chunks s) as (cs & tail & -> & Hlen).
  apply Forall_app in Hb as [Hcs Htail].
  rewrite b32encode_shape by done.
  destruct tail as [|b0 [|b1 [|b2 [|b3 [|b4 tail]]]]];
    cbn [length] in Hlen; try lia; cbn [last_part];
    repeat (apply Forall_cons in Htail as [? Htail]).
  - rewrite !app_nil_r. by apply b32decode_whole.
  - apply b32decode_partial with (zs := [0; 0; 0; 0]); try done; try lia.
    + apply from_bytes_bound; unfold is_byte in *; lia.
    + unfold from_bytes. cbn [Z.of_nat Pos.of_succ_nat Pos.succ Z.mul Pos.mul].
      Z.div_mod_to_equations; lia.
    + apply to_bytes5_from_bytes; unfold is_byte in *; lia.
  - apply b32decode_partial with (zs := [0; 0; 0]); try done; try lia.
    + apply from_bytes_bound; unfold is_byte in *; lia.
    + unfold from_bytes. cbn [Z.of_nat Pos.of_succ_nat Pos.succ Z.mul Pos.mul].
      Z.div_mod_to_equations; lia.
    + apply (to_bytes5_from_bytes b0 b1 0 0 0); unfold is_byte in *; lia.
  - apply b32decode_partial with (zs := [0; 0]); try done; try lia.
    + apply from_bytes_bound; unfold is_byte in *; lia.
    + unfold from_bytes. cbn [Z.of_nat Pos.of_succ_nat Pos.succ Z.mul Pos.mul].
      Z.div_mod_to_equations; lia.
    + apply (to_bytes5_from_bytes b0 b1 b2 0 0); unfold is_byte in *; lia.
  - apply b32decode_partial with (zs := [0]); try done; try lia.
    + apply from_bytes_bound; unfold is_byte in *; lia.
    + unfold from_bytes. cbn [Z.of_nat Pos.of_succ_nat Pos.succ Z.mul Pos.mul].
      Z.div_mod_to_equations; lia.
    + apply (to_bytes5_from_bytes b0 b1 b2 b3 0); unfold is_byte in *; lia.
Qed.

Lemma length_b32encode (s : list Z) : (length (b32encode s) mod 8 = 0)%nat.
Proof.
  destruct (split_chunks s) as (cs & tail & -> & Hlen).
  rewrite b32encode_shape, length_app, length_enc_chunks by done.
  rewrite Nat.add_comm, Nat.mul_comm, Nat.Div0.mod_add.
  by destruct tail as [|b0 [|b1 [|b2 [|b3 [|b4 tail]]]]].
Qed.

End Base32Facts.

Lemma secret_bytes_mod (secret : list Z) :
secret_bytes secret = map (fun b => (b + 256) mod 256) secret.
Proof.
unfold secret_bytes. apply map_ext. intros b. apply Base32Facts.land255.
Qed.

Lemma secret_bytes_range (secret : list Z) :
Forall is_byte (secret_bytes secret).
Proof.
rewrite secret_bytes_mod. apply Forall_map, Forall_forall. intros b _.
apply Z.mod_pos_bound. lia.
Qed.


(** ** Issuer, caption and URI *)


Lemma truthy_opt_nonempty token k :
  truthy_opt (token_get token k) = true →
  ∃ v, nonempty_field token k = Some v ∧ token_item token k = Ok v.
Proof.
  unfold truthy_opt, token_get, nonempty_field, token_item.
  destruct (token !! k) as [v|]; [|done]. intros ->. eauto.
Qed.

Lemma truthy_opt_empty token k :
  truthy_opt (token_get token k) = false → nonempty_field token k = None.
Proof.
  unfold truthy_opt, token_get, nonempty_field.
  destruct (token !! k) as [v|]; [|done]. by intros ->.
Qed.

Lemma issuer_of_spec i token : issuer_of i token = Ok (issuer_spec i token).
Proof.
  unfold issuer_of, issuer_spec, issuer_fields. cbn [omap list_omap].
  repeat
    (match goal with
     | |- context [truthy_opt (token_get token ?k)] =>
         destruct (truthy_opt (token_get token k)) eqn:E;
         [ apply truthy_opt_nonempty in E as (v & -> & ->); done
         | apply truthy_opt_empty in E as -> ]
     end).
  done.
Qed.

Lemma issuer_spec_index i j token :
  has_issuer token = true → issuer_spec i token = issuer_spec j token.
Proof.
  unfold has_issuer, issuer_spec, issuer_fields. cbn [existsb omap list_omap].
  repeat
    (match goal with
     | |- context [truthy_opt (token_get token ?k)] =>
         destruct (truthy_opt (token_get token k)) eqn:E;
         [ apply truthy_opt_nonempty in E as (v & -> & _); done
         | apply truthy_opt_empty in E as -> ]
     end).
  done.
Qed.

Lemma token_uri_index i j token :
  has_issuer token = true →
  token_uri i (JDict token) = token_uri j (JDict token).
Proof.
  intros H. unfold token_uri. cbn [as_dict mbind result_bind].
  by rewrite !issuer_of_spec, (issuer_spec_index i j).
Qed.

Lemma token_item_some token k v :
  token !! k = Some v → token_item token k = Ok v.
Proof. unfold token_item. by intros ->. Qed.

Lemma label_of_spec token label :
  token !! "label" = Some (VStr label) →
  label_of token = Ok (VStr (caption_nonempty_ext token label)).
Proof.
  intros Hl. unfold label_of, caption_nonempty_ext.
  destruct (truthy_opt (token_get token "issuerExt")) eqn:E.
  - apply truthy_opt_nonempty in E as (v & -> & ->).
    unfold token_item. by rewrite Hl.
  - apply truthy_opt_empty in E as ->. unfold token_item. by rewrite Hl.
Qed.

Lemma token_uri_expected i token caption uri :
  expected_uri caption_nonempty_ext i token = Some (caption, uri) →
  token_uri i (JDict token) = Ok (VStr caption, uri).
Proof.
  unfold expected_uri. intros H.
  destruct (token !! "type") as [[type| |]|] eqn:Ht; try done.
  destruct (token !! "secret") as [[| |secret]|] eqn:Hs; try done.
  destruct (token !! "label") as [[label| |]|] eqn:Hl; try done.
  destruct (token !! "algo") as [[algo| |]|] eqn:Ha; try done.
  destruct (token !! "digits") as [digits|] eqn:Hd; try done.
  destruct (token !! "period") as [period|] eqn:Hp; try done.
  destruct (issuer_spec i token) as [issuer| |] eqn:Hi; try done.
  destruct (is_ascii type); [|done].
  injection H as <- <-.
  unfold token_uri. cbn [as_dict mbind result_bind].
  rewrite issuer_of_spec, Hi. cbn [mbind result_bind].
  rewrite (token_item_some _ _ _ Hs). cbn [mbind result_bind call_secret_to_b32].
  rewrite (token_item_some _ _ _ Ha). cbn [mbind result_bind].
  rewrite (token_item_some _ _ _ Hd). cbn [mbind result_bind].
  rewrite (token_item_some _ _ _ Hp). cbn [mbind result_bind].
  rewrite (label_of_spec token label Hl). cbn [mbind result_bind].
  rewrite (token_item_some _ _ _ Ht). reflexivity.
Qed.

(** ** The loop of [generate_images] *)

(** The loop encodes the tokens in order, the [j]-th with the index
    [i + j], up to the first one that raises. *)
Lemma generate_images_loop_inv images_path tokens : ∀ i qrcode_list saved,
  ∃ es : list (pyval * string),
    (∀ j e, es !! j = Some e →
       ∃ tok, tokens !! j = Some tok ∧ token_uri (i + Z.of_nat j) tok = Ok e) ∧
    gen_saved (generate_images_loop images_path tokens i qrcode_list saved)
      = saved ++ saved_of images_path i es ∧
    match gen_result (generate_images_loop images_path tokens i qrcode_list saved) with
    | Ok l => length es = length tokens ∧
              l = qrcode_list ++ entries_of images_path i es
    | Err err => ∃ tok, tokens !! length es = Some tok ∧
                        token_uri (i + Z.of_nat (length es)) tok = Err err
    end.
Proof.
  induction tokens as [|tok tokens IH]; intros i qrcode_list saved.
  - exists []. cbn. rewrite !app_nil_r. split; [|done]. intros j e. by rewrite lookup_nil.
  - cbn [generate_images_loop].
    destruct (token_uri i tok) as [[label uri]|err] eqn:Huri.
    + destruct (IH (i + 1) (qrcode_list ++ [(py_str label, image_file images_path i)])
                  (saved ++ [SavedImage uri (image_file images_path i)]))
        as (es & Hes & Hsaved & Hres).
      exists ((label, uri) :: es). split; [|split].
      * intros [|j] e; cbn.
        -- intros [= <-]. exists tok. by rewrite Z.add_0_r.
        -- intros He. destruct (Hes j e He) as (tok' & ? & ?).
           exists tok'. split; [done|].
           by replace (i + Z.of_nat (S j)) with (i + 1 + Z.of_nat j) by lia.
      * rewrite Hsaved, <-app_assoc. f_equal. unfold saved_of. cbn.
        rewrite Z.add_0_r. f_equal. apply imap_ext. intros j e _. cbn.
        by replace (i + Z.of_nat (S j)) with (i + 1 + Z.of_nat j) by lia.
      * destruct (gen_result _) as [l|err].
        -- destruct Hres as [Hlen ->]. split; [cbn; lia|].
           rewrite <-app_assoc. f_equal. unfold entries_of. cbn.
           rewrite Z.add_0_r. f_equal. apply imap_ext. intros j e _. cbn.
           by replace (i + Z.of_nat (S j)) with (i + 1 + Z.of_nat j) by lia.
        -- destruct Hres as (tok' & ? & ?). exists tok'. cbn [length lookup list_lookup].
           split; [done|].
           by replace (i + Z.of_nat (S (length es))) with (i + 1 + Z.of_nat (length es)) by lia.
    + exists []. cbn. rewrite app_nil_r. split; [|split; [done|]].
      * intros j e. by rewrite lookup_nil.
      * exists tok. by rewrite Z.add_0_r.
Qed.

Lemma token_uri_caption i token label uri :
  token_uri i token = Ok (label, uri) → caption_of token = Ok (py_str label).
Proof.
  unfold token_uri, caption_of.
  destruct (as_dict token) as [d|]; [|done]. cbn [mbind result_bind].
  repeat (match goal with
          | |- context [mbind _ ?r] =>
              let v := fresh "v" in destruct r as [v|]; [|done];
              cbn [mbind result_bind]
          end).
  by intros [= -> _].
Qed.

(** ** Decoding of the credential file *)







Lemma parse_loop_binds_name E elems : ∀ tokens name tokens' name',
  parse_loop E elems tokens name = Ok (tokens', name') →
  elems ≠ [] → is_Some name'.
Proof.
  induction elems as [|e elems IH]; intros tokens name tokens' name' H Hne; [done|].
  cbn [parse_loop] in H.
  assert (Hrest : ∀ tokens0, parse_loop E elems tokens0 (Some (xs_name e)) = Ok (tokens', name') →
                  is_Some name').
  { intros tokens0 H0. destruct elems as [|e2 elems].
    - cbn in H0. injection H0 as _ <-. eauto.
    - by eapply IH. }
  destruct (decide _); [by eapply Hrest|].
  destruct (xs_text e) as [text|]; [|done].
  destruct (json_loads E text); [by eapply Hrest | done].
Qed.

Lemma parse_elems_empty E : parse_elems E [] = Err (UnboundLocalError "name").
Proof. reflexivity. Qed.

Lemma parse_elems_ok_nonempty E elems tokens :
  parse_elems E elems = Ok tokens → elems ≠ [].
Proof. intros H ->. by rewrite parse_elems_empty in H. Qed.

Lemma parse_loop_total E elems : ∀ tokens name,
  all_json E elems → is_ok (parse_loop E elems tokens name) = true.
Proof.
  induction elems as [|e elems IH]; intros tokens name Hall; [done|].
  cbn [parse_loop].
  assert (Hall' : all_json E elems).
  { intros e' Hin. apply Hall. by apply elem_of_cons; right. }
  destruct (decide _) as [Hres|Hres]; [by apply IH|].
  destruct (Hall e) as (text & token & -> & ->); [by apply elem_of_cons; left|done|].
  by apply IH.
Qed.

Lemma parse_elems_total E elems :
  elems ≠ [] → all_json E elems → is_ok (parse_elems E elems) = true.
Proof.
  intros Hne Hall. unfold parse_elems.
  pose proof (parse_loop_total E elems [] None Hall) as Hok.
  destruct (parse_loop E elems [] None) as [[tokens name]|] eqn:Hloop; [|done].
  cbn [mbind result_bind].
  by destruct (parse_loop_binds_name _ _ _ _ _ _ Hloop Hne) as [n ->].
Qed.

(** ** Sorting by caption *)


Lemma ascii_compare_lt (a b : ascii) :
  Ascii.compare a b = Lt ↔ (N_of_ascii a < N_of_ascii b)%N.
Proof. unfold Ascii.compare. by rewrite N.compare_lt_iff. Qed.

Lemma ascii_compare_refl (a : ascii) : Ascii.compare a a = Eq.
Proof. unfold Ascii.compare. apply N.compare_refl. Qed.

Lemma string_compare_refl (s : string) : String.compare s s = Eq.
Proof. induction s as [|c s IH]; [done|]. cbn. by rewrite ascii_compare_refl. Qed.

Lemma string_compare_lt_trans (s1 s2 s3 : string) :
  String.compare s1 s2 = Lt → String.compare s2 s3 = Lt →
  String.compare s1 s3 = Lt.
Proof.
  revert s2 s3. induction s1 as [|c1 s1 IH]; intros [|c2 s2] [|c3 s3]; cbn; try done.
  destruct (Ascii.compare c1 c2) eqn:H12; try done;
    destruct (Ascii.compare c2 c3) eqn:H23; try done; intros Ha Hb.
  - apply Ascii.compare_eq_iff in H12 as ->, H23 as ->.
    rewrite ascii_compare_refl. by eapply IH.
  - apply Ascii.compare_eq_iff in H12 as ->. by rewrite H23.
  - apply Ascii.compare_eq_iff in H23 as <-. by rewrite H12.
  - apply ascii_compare_lt in H12. apply ascii_compare_lt in H23.
    assert (H13 : Ascii.compare c1 c3 = Lt)
      by (apply ascii_compare_lt; by apply N.lt_trans with (N_of_ascii c2)).
    by rewrite H13.
Qed.

Lemma str_le_iff (s t : string) : str_le s t ↔ String.compare s t = Lt ∨ s = t.
Proof.
  unfold str_le, String.leb. split.
  - destruct (String.compare s t) eqn:H; try done; intros _; [|by left].
    right. by apply String.compare_eq_iff.
  - intros [-> | ->]; [done|]. by rewrite string_compare_refl.
Qed.

#[global] Instance str_le_trans : Transitive str_le.
Proof.
  intros s1 s2 s3. rewrite !str_le_iff.
  intros [H12 | ->] [H23 | ->]; eauto using string_compare_lt_trans.
Qed.

#[global] Instance str_le_antisym : AntiSymm eq str_le.
Proof. intros s t. apply String.leb_antisym. Qed.

Lemma ltb_le (s t : string) : String.ltb s t = true → str_le s t.
Proof.
  unfold String.ltb, str_le, String.leb.
  destruct (String.compare s t); intros H; congruence.
Qed.

Lemma not_ltb_le (s t : string) : String.ltb s t = false → str_le t s.
Proof.
  unfold String.ltb, str_le, String.leb. rewrite (String.compare_antisym t s).
  destruct (String.compare s t); cbn; intros H; congruence.
Qed.


Lemma insert_by_key_perm x l : insert_by_key x l ≡ₚ x :: l.
Proof.
  induction l as [|y l IH]; [done|]. cbn [insert_by_key].
  destruct (String.ltb _ _); [|done].
  rewrite IH. apply Permutation_swap.
Qed.

Lemma sorted_by_caption_perm l : sorted_by_caption l ≡ₚ l.
Proof.
  induction l as [|x l IH]; [done|]. cbn [sorted_by_caption foldr].
  rewrite insert_by_key_perm. by f_equiv.
Qed.

Lemma insert_by_key_sorted x l :
  StronglySorted caption_le l → StronglySorted caption_le (insert_by_key x l).
Proof.
  induction 1 as [|y l Hl IH Hy]; cbn [insert_by_key].
  - repeat constructor.
  - destruct (String.ltb (fst y) (fst x)) eqn:Hlt.
    + constructor; [done|].
      rewrite insert_by_key_perm. constructor; [|done].
      by apply ltb_le.
    + apply not_ltb_le in Hlt.
      constructor; [by constructor|].
      constructor; [done|].
      eapply Forall_impl; [exact Hy|].
      intros z Hz. unfold caption_le in *.
      by apply (str_le_trans _ (fst y)).
Qed.

Lemma sorted_by_caption_sorted l : StronglySorted caption_le (sorted_by_caption l).
Proof.
  induction l as [|x l IH]; [constructor|].
  cbn [sorted_by_caption foldr]. by apply insert_by_key_sorted.
Qed.

Lemma sorted_captions_unique (l l' : list (string * string)) :
  l.*1 ≡ₚ l'.*1 → (sorted_by_caption l).*1 = (sorted_by_caption l').*1.
Proof.
  intros Hperm.
  apply (StronglySorted_unique str_le).
  - apply (StronglySorted_fmap fst caption_le); [done|apply sorted_by_caption_sorted].
  - apply (StronglySorted_fmap fst caption_le); [done|apply sorted_by_caption_sorted].
  - by rewrite !sorted_by_caption_perm.
Qed.

(** ** Layout *)


Lemma slot_mod12 (k : nat) :
  slot_x k = slot_x (k mod 12) ∧ slot_y k = slot_y (k mod 12).
Proof.
  unfold slot_x, slot_y. rewrite Nat.Div0.mod_mod.
  replace ((k mod 12) mod 2)%nat with (k mod 2)%nat; [done|].
  pose proof (Nat.div_mod_eq k 12). pose proof (Nat.div_mod_eq k 2).
  pose proof (Nat.div_mod_eq (k mod 12) 2).
  pose proof (Nat.mod_upper_bound k 2). pose proof (Nat.mod_upper_bound (k mod 12) 2).
  lia.
Qed.

Lemma succ_mod12 (k : nat) : (S k mod 12 = S (k mod 12) mod 12)%nat.
Proof.
  change (S k) with (1 + k)%nat. change (S (k mod 12)) with (1 + k mod 12)%nat.
  by rewrite Nat.Div0.add_mod_idemp_r.
Qed.

(** One iteration: from the cursor left by the entries before the
    [k]-th, the two tests lead to the slot of the [k]-th entry. *)
Lemma loop_step (k : nat) (x y : Z) :
  cursor_at k x y →
  ∃ x1 y1,
    (if decide (x > 150) then (10, y + QRCODE_H + 13) else (x, y)) = (x1, y1) ∧
    (if decide (y1 > 250) then (true, 10, 10) else (false, x1, y1))
    = (starts_page k, slot_x k, slot_y k).
Proof.
  destruct k as [|k']; intros [-> ->].
  - exists 10, 10. by vm_compute.
  - destruct (slot_mod12 k') as [-> ->].
    destruct (slot_mod12 (S k')) as [-> ->].
    unfold starts_page.
    rewrite (bool_decide_eq_true_2 (0 < S k')%nat) by lia. cbn [andb].
    rewrite succ_mod12.
    pose proof (Nat.mod_upper_bound k' 12 ltac:(lia)) as Hr.
    revert Hr. generalize (k' mod 12)%nat as r. intros r Hr.
    do 12 (destruct r as [|r]; [eexists _, _; by vm_compute|]).
    lia.
Qed.

Lemma write_loop_layout qrcode_list : ∀ pdf k x y,
  cursor_at k x y →
  write_loop pdf qrcode_list x y = pdf ++ layout_cmds k qrcode_list.
Proof.
  induction qrcode_list as [|qc rest IH]; intros pdf k x y Hcur.
  - simpl. by rewrite app_nil_r.
  - cbn [write_loop layout_cmds].
    destruct (loop_step k x y Hcur) as (x1 & y1 & -> & Hpage).
    assert (Hnext : cursor_at (S k) (slot_x k + QRCODE_W + 60) (slot_y k))
      by (unfold QRCODE_W; split; lia).
    revert Hnext.
    destruct (decide (y1 > 250)); injection Hpage as <- <- <-; intros Hnext.
    + rewrite (IH _ (S k)) by done.
      unfold add_image. by rewrite <-!app_assoc.
    + rewrite (IH _ (S k)) by done.
      unfold add_image. by rewrite <-!app_assoc.
Qed.

Lemma pages_before_step (k : nat) :
  (pages_before k + (if starts_page k then 1 else 0) = k / 12)%nat.
Proof.
  unfold starts_page. destruct k as [|k']; [done|].
  rewrite (bool_decide_eq_true_2 (0 < S k')%nat) by lia. cbn [andb pages_before].
  pose proof (Nat.div_mod_eq (S k') 12). pose proof (Nat.div_mod_eq k' 12).
  pose proof (Nat.mod_upper_bound (S k') 12). pose proof (Nat.mod_upper_bound k' 12).
  case_bool_decide; lia.
Qed.

Lemma placements_from_app pdf pdf' page :
  placements_from page (pdf ++ pdf')
  = placements_from page pdf ++ placements_from (page + page_count pdf) pdf'.
Proof.
  revert page. induction pdf as [|c pdf IH]; intros page.
  - simpl. by rewrite Nat.add_0_r.
  - destruct c; cbn [app placements_from page_count]; rewrite IH;
      rewrite ?Nat.add_succ_r; done.
Qed.

Lemma page_count_app pdf pdf' :
  page_count (pdf ++ pdf') = (page_count pdf + page_count pdf')%nat.
Proof.
  induction pdf as [|c pdf IH]; [done|].
  destruct c; cbn [app page_count]; lia.
Qed.

Lemma placements_layout qrcode_list : ∀ base k,
  placements_from (base + pages_before k) (layout_cmds k qrcode_list)
  = placed base k qrcode_list.
Proof.
  unfold placed.
  induction qrcode_list as [|qc rest IH]; intros base k; [done|].
  cbn [layout_cmds imap]. rewrite Nat.add_0_r.
  pose proof (pages_before_step k) as Hstep.
  specialize (IH base (S k)). cbn [pages_before] in IH.
  destruct (starts_page k); cbn [app placements_from].
  - replace (S (base + pages_before k)) with (base + k / 12)%nat by lia.
    f_equal. rewrite IH. apply imap_ext. intros j qc' _. cbn.
    by replace (k + S j)%nat with (S k + j)%nat by lia.
  - replace (base + pages_before k)%nat with (base + k / 12)%nat by lia.
    f_equal. rewrite IH. apply imap_ext. intros j qc' _. cbn.
    by replace (k + S j)%nat with (S k + j)%nat by lia.
Qed.

Lemma page_count_layout qrcode_list : ∀ k,
  (pages_before k + page_count (layout_cmds k qrcode_list)
   = pages_before (k + length qrcode_list))%nat.
Proof.
  induction qrcode_list as [|qc rest IH]; intros k.
  - simpl. by rewrite !Nat.add_0_r.
  - cbn [layout_cmds length]. rewrite page_count_app.
    pose proof (pages_before_step k) as Hstep.
    specialize (IH (S k)). cbn [pages_before] in IH.
    replace (k + S (length rest))%nat with (S k + length rest)%nat by lia.
    cbn [app page_count].
    destruct (starts_page k); cbn [page_count]; lia.
Qed.

Lemma generate_doc_layout pdf_path qrcode_list :
  generate_doc pdf_path qrcode_list
  = [SetFont "Arial" EmptyString 8; AddPage] ++ layout_cmds 0 qrcode_list
    ++ [Output pdf_path].
Proof.
  unfold generate_doc, write_to_pdf_file.
  rewrite (write_loop_layout _ _ 0%nat) by done. by rewrite <-app_assoc.
Qed.

Lemma placements_generate_doc pdf_path qrcode_list :
  placements (generate_doc pdf_path qrcode_list) = placed 1 0 qrcode_list.
Proof.
  rewrite generate_doc_layout. unfold placements.
  cbn [app placements_from].
  rewrite placements_from_app. cbn [placements_from]. rewrite app_nil_r.
  apply (placements_layout qrcode_list 1 0).
Qed.

Lemma page_count_generate_doc pdf_path qrcode_list :
  page_count (generate_doc pdf_path qrcode_list)
  = S (pages_before (length qrcode_list)).
Proof.
  rewrite generate_doc_layout. cbn [app page_count].
  rewrite page_count_app. cbn [page_count]. rewrite Nat.add_0_r.
  f_equal. apply (page_count_layout qrcode_list 0).
Qed.

Lemma placed_lookup base k qrcode_list j p :
  placed base k qrcode_list !! j = Some p ↔
  ∃ qc, qrcode_list !! j = Some qc ∧
        p = Placement (base + (k + j) / 12) (slot_x (k + j)) (slot_y (k + j))
              (snd qc).
Proof.
  unfold placed. rewrite list_lookup_imap.
  destruct (qrcode_list !! j) as [qc|]; cbn; split.
  - intros [= <-]. eauto.
  - intros (qc' & [= <-] & ->). done.
  - done.
  - intros (? & ? & _). done.
Qed.


Lemma mod2_mod12 (k : nat) : (k mod 2 = (k mod 12) mod 2)%nat.
Proof.
  pose proof (Nat.div_mod_eq k 12). pose proof (Nat.div_mod_eq k 2).
  pose proof (Nat.div_mod_eq (k mod 12) 2).
  pose proof (Nat.mod_upper_bound k 2).
  pose proof (Nat.mod_upper_bound (k mod 12) 2).
  lia.
Qed.

Lemma div12_succ (k : nat) :
  (S k / 12 = S (k mod 12) / 12 + k / 12)%nat.
Proof.
  pose proof (Nat.div_mod_eq k 12) as Hk.
  pose proof (Nat.mod_upper_bound k 12 ltac:(lia)) as Hr.
  replace (S k) with (S (k mod 12) + k / 12 * 12)%nat at 1 by lia.
  rewrite Nat.div_add by lia. lia.
Qed.

(** From one entry to the next, in terms of slots. *)
Lemma slot_step (k : nat) :
  if decide (S k mod 2 = 0)%nat then
    if decide (slot_y k + QRCODE_H + 13 > 250) then
      (S k / 12 = S (k / 12))%nat ∧ slot_x (S k) = 10 ∧ slot_y (S k) = 10
    else
      (S k / 12 = k / 12)%nat ∧ slot_x (S k) = 10 ∧
      slot_y (S k) = slot_y k + QRCODE_H + 13
  else
    (S k / 12 = k / 12)%nat ∧ slot_x (S k) = slot_x k + QRCODE_W + 60 ∧
    slot_y (S k) = slot_y k.
Proof.
  rewrite (mod2_mod12 (S k)), div12_succ.
  destruct (slot_mod12 k) as [-> ->].
  destruct (slot_mod12 (S k)) as [-> ->].
  rewrite succ_mod12.
  pose proof (Nat.mod_upper_bound k 12 ltac:(lia)) as Hr.
  revert Hr. generalize (k mod 12)%nat as r. generalize (k / 12)%nat as pg.
  intros pg r Hr.
  do 12 (destruct r as [|r]; [vm_compute; done|]).
  lia.
Qed.

Lemma placed_row_wrap base qrcode_list : row_wrap_after 2 (placed base 0 qrcode_list).
Proof.
  intros k p q Hp Hq.
  apply placed_lookup in Hp as (qc & _ & ->).
  apply placed_lookup in Hq as (qc' & _ & ->).
  cbn [pl_page pl_x pl_y Nat.add].
  pose proof (slot_step k) as Hstep.
  repeat case_decide; destruct Hstep as (Hpg & Hx & Hy);
    rewrite ?Hpg, ?Hx, ?Hy; repeat split; lia.
Qed.

Lemma placed_images base k qrcode_list :
  pl_image <$> placed base k qrcode_list = qrcode_list.*2.
Proof.
  apply list_eq. intros j. unfold placed.
  rewrite !list_lookup_fmap, list_lookup_imap.
  by destruct (qrcode_list !! j).
Qed.

(** Two entries of a page have different slots. *)
Lemma slots_disjoint (i j : nat) :
  i ≠ j → (i / 12 = j / 12)%nat →
  slot_x i + QRCODE_W ≤ slot_x j ∨ slot_x j + QRCODE_W ≤ slot_x i ∨
  slot_y i + QRCODE_H + 2 ≤ slot_y j ∨ slot_y j + QRCODE_H + 2 ≤ slot_y i.
Proof.
  intros Hne Hpage. unfold slot_x, slot_y, QRCODE_W, QRCODE_H.
  rewrite (mod2_mod12 i), (mod2_mod12 j).
  pose proof (Nat.div_mod_eq i 12). pose proof (Nat.div_mod_eq j 12).
  pose proof (Nat.div_mod_eq (i mod 12) 2). pose proof (Nat.div_mod_eq (j mod 12) 2).
  pose proof (Nat.mod_upper_bound (i mod 12) 2).
  pose proof (Nat.mod_upper_bound (j mod 12) 2).
  lia.
Qed.

Lemma slot_on_grid (k : nat) :
  (slot_x k = 10 ∨ slot_x k = 105) ∧ 10 ≤ slot_y k ≤ 250 ∧
  slot_x k ≤ 150.
Proof.
  destruct (slot_mod12 k) as [-> ->].
  pose proof (Nat.mod_upper_bound k 12 ltac:(lia)) as Hr.
  revert Hr. generalize (k mod 12)%nat as r. intros r Hr.
  do 12 (destruct r as [|r]; [vm_compute; repeat split; (by left) || (by right) || congruence|]).
  lia.
Qed.

Lemma drawn_images_from_app pdf pdf' page :
  drawn_images_from page (pdf ++ pdf')
  = drawn_images_from page pdf ++ drawn_images_from (page + page_count pdf) pdf'.
Proof.
  revert page. induction pdf as [|c pdf IH]; intros page.
  - simpl. by rewrite Nat.add_0_r.
  - destruct c; cbn [app drawn_images_from page_count]; rewrite IH;
      rewrite ?Nat.add_succ_r; done.
Qed.

Lemma drawn_texts_from_app pdf pdf' page :
  drawn_texts_from page (pdf ++ pdf')
  = drawn_texts_from page pdf ++ drawn_texts_from (page + page_count pdf) pdf'.
Proof.
  revert page. induction pdf as [|c pdf IH]; intros page.
  - simpl. by rewrite Nat.add_0_r.
  - destruct c; cbn [app drawn_texts_from page_count]; rewrite IH;
      rewrite ?Nat.add_succ_r; done.
Qed.

Lemma drawn_images_layout qrcode_list : ∀ base k,
  drawn_images_from (base + pages_before k) (layout_cmds k qrcode_list)
  = images_at base k qrcode_list.
Proof.
  unfold images_at.
  induction qrcode_list as [|qc rest IH]; intros base k; [done|].
  cbn [layout_cmds imap]. rewrite Nat.add_0_r.
  pose proof (pages_before_step k) as Hstep.
  specialize (IH base (S k)). cbn [pages_before] in IH.
  destruct (starts_page k); cbn [app drawn_images_from].
  - replace (S (base + pages_before k)) with (base + k / 12)%nat by lia.
    f_equal. rewrite IH. apply imap_ext. intros j qc' _. cbn.
    by replace (k + S j)%nat with (S k + j)%nat by lia.
  - replace (base + pages_before k)%nat with (base + k / 12)%nat by lia.
    f_equal. rewrite IH. apply imap_ext. intros j qc' _. cbn.
    by replace (k + S j)%nat with (S k + j)%nat by lia.
Qed.

Lemma drawn_texts_layout qrcode_list : ∀ base k,
  drawn_texts_from (base + pages_before k) (layout_cmds k qrcode_list)
  = texts_at base k qrcode_list.
Proof.
  unfold texts_at.
  induction qrcode_list as [|qc rest IH]; intros base k; [done|].
  cbn [layout_cmds imap]. rewrite Nat.add_0_r.
  pose proof (pages_before_step k) as Hstep.
  specialize (IH base (S k)). cbn [pages_before] in IH.
  destruct (starts_page k); cbn [app drawn_texts_from].
  - replace (S (base + pages_before k)) with (base + k / 12)%nat by lia.
    f_equal. rewrite IH. apply imap_ext. intros j qc' _. cbn.
    by replace (k + S j)%nat with (S k + j)%nat by lia.
  - replace (base + pages_before k)%nat with (base + k / 12)%nat by lia.
    f_equal. rewrite IH. apply imap_ext. intros j qc' _. cbn.
    by replace (k + S j)%nat with (S k + j)%nat by lia.
Qed.

Lemma drawn_images_generate_doc pdf_path qrcode_list :
  drawn_images (generate_doc pdf_path qrcode_list) = images_at 1 0 qrcode_list.
Proof.
  rewrite generate_doc_layout. unfold drawn_images.
  cbn [app drawn_images_from].
  rewrite drawn_images_from_app. cbn [drawn_images_from]. rewrite app_nil_r.
  apply (drawn_images_layout qrcode_list 1 0).
Qed.

Lemma drawn_texts_generate_doc pdf_path qrcode_list :
  drawn_texts (generate_doc pdf_path qrcode_list) = texts_at 1 0 qrcode_list.
Proof.
  rewrite generate_doc_layout. unfold drawn_texts.
  cbn [app drawn_texts_from].
  rewrite drawn_texts_from_app. cbn [drawn_texts_from]. rewrite app_nil_r.
  apply (drawn_texts_layout qrcode_list 1 0).
Qed.

Lemma font_size_from_layout qrcode_list : ∀ k size,
  font_size_from size (layout_cmds k qrcode_list) = size.
Proof.
  induction qrcode_list as [|qc rest IH]; intros k size; [done|].
  cbn [layout_cmds]. destruct (starts_page k); cbn; apply IH.
Qed.

Lemma font_size_from_app pdf pdf' size :
  font_size_from size (pdf ++ pdf') = font_size_from (font_size_from size pdf) pdf'.
Proof.
  revert size. induction pdf as [|c pdf IH]; intros size; [done|].
  destruct c; cbn [app font_size_from]; apply IH.
Qed.

Lemma font_size_generate_doc pdf_path qrcode_list :
  font_size (generate_doc pdf_path qrcode_list) = 8.
Proof.
  rewrite generate_doc_layout. unfold font_size. cbn [app font_size_from].
  by rewrite font_size_from_app, font_size_from_layout.
Qed.

Lemma images_at_lookup base k qrcode_list j p :
  images_at base k qrcode_list !! j = Some p ↔
  ∃ qc, qrcode_list !! j = Some qc ∧
        p = DrawnImage (base + (k + j) / 12) (slot_x (k + j)) (slot_y (k + j))
              QRCODE_W QRCODE_H (snd qc).
Proof.
  unfold images_at. rewrite list_lookup_imap.
  destruct (qrcode_list !! j) as [qc|]; cbn; split.
  - intros [= <-]. eauto.
  - intros (qc' & [= <-] & ->). done.
  - done.
  - intros (? & ? & _). done.
Qed.

Lemma texts_at_lookup base k qrcode_list j t :
  texts_at base k qrcode_list !! j = Some t ↔
  ∃ qc, qrcode_list !! j = Some qc ∧
        t = DrawnText (base + (k + j) / 12) (slot_x (k + j))
              (slot_y (k + j) + QRCODE_H + 2) (fst qc).
Proof.
  unfold texts_at. rewrite list_lookup_imap.
  destruct (qrcode_list !! j) as [qc|]; cbn; split.
  - intros [= <-]. eauto.
  - intros (qc' & [= <-] & ->). done.
  - done.
  - intros (? & ? & _). done.
Qed.

Lemma images_at_names base k qrcode_list :
  di_name <$> images_at base k qrcode_list = qrcode_list.*2.
Proof.
  apply list_eq. intros j. unfold images_at.
  rewrite !list_lookup_fmap, list_lookup_imap.
  by destruct (qrcode_list !! j).
Qed.

Lemma texts_at_captions base k qrcode_list :
  dt_txt <$> texts_at base k qrcode_list = qrcode_list.*1.
Proof.
  apply list_eq. intros j. unfold texts_at.
  rewrite !list_lookup_fmap, list_lookup_imap.
  by destruct (qrcode_list !! j).
Qed.

Lemma doc_entries_generate_doc pdf_path qrcode_list :
  doc_entries (generate_doc pdf_path qrcode_list) = qrcode_list.
Proof.
  unfold doc_entries.
  rewrite drawn_images_generate_doc, drawn_texts_generate_doc.
  rewrite images_at_names, texts_at_captions. apply zip_fst_snd.
Qed.

(** Two entries of a page: their slots are in different columns, 95
    apart, or in different rows, 48 apart. *)
Lemma slots_apart (i j : nat) :
  i ≠ j → (i / 12 = j / 12)%nat →
  (slot_y i = slot_y j ∧ (slot_x i + 95 = slot_x j ∨ slot_x j + 95 = slot_x i)) ∨
  slot_y i + 48 ≤ slot_y j ∨ slot_y j + 48 ≤ slot_y i.
Proof.
  intros Hne Hpage. unfold slot_x, slot_y.
  rewrite (mod2_mod12 i), (mod2_mod12 j).
  pose proof (Nat.div_mod_eq i 12). pose proof (Nat.div_mod_eq j 12).
  pose proof (Nat.div_mod_eq (i mod 12) 2). pose proof (Nat.div_mod_eq (j mod 12) 2).
  pose proof (Nat.mod_upper_bound (i mod 12) 2).
  pose proof (Nat.mod_upper_bound (j mod 12) 2).
  lia.
Qed.

(** The rows of a page: between the image of a slot and the line of the
    caption of any slot of the page there are at least 2. *)
Lemma slot_rows (i j : nat) :
  slot_y i + 37 + 11 ≤ slot_y j ∨ slot_y j + 35 + 2 ≤ slot_y i + 37.
Proof.
  unfold slot_y.
  pose proof (Nat.div_mod_eq (i mod 12) 2). pose proof (Nat.div_mod_eq (j mod 12) 2).
  lia.
Qed.

Lemma images_at_disjoint base qrcode_list i j p q :
  i ≠ j → images_at base 0 qrcode_list !! i = Some p →
  images_at base 0 qrcode_list !! j = Some q →
  di_page p = di_page q → images_disjoint p q.
Proof.
  intros Hne Hp Hq Hpage.
  apply images_at_lookup in Hp as (qc & _ & ->).
  apply images_at_lookup in Hq as (qc' & _ & ->).
  cbn [di_page Nat.add] in Hpage. unfold images_disjoint.
  cbn [di_x di_y di_w di_h Nat.add].
  apply slots_disjoint in Hne; [|lia].
  unfold QRCODE_W, QRCODE_H in *. lia.
Qed.

Lemma texts_at_disjoint cw size base qrcode_list i j t t' :
  (∀ t, t ∈ texts_at base 0 qrcode_list → text_ends_by cw size t (dt_x t + 95)) →
  i ≠ j → texts_at base 0 qrcode_list !! i = Some t →
  texts_at base 0 qrcode_list !! j = Some t' →
  dt_page t = dt_page t' → texts_disjoint cw size t t'.
Proof.
  intros Hfit Hne Ht Ht' Hpage.
  pose proof (Hfit t (list_elem_of_lookup_2 _ _ _ Ht)) as Hw.
  pose proof (Hfit t' (list_elem_of_lookup_2 _ _ _ Ht')) as Hw'.
  apply texts_at_lookup in Ht as (qc & _ & ->).
  apply texts_at_lookup in Ht' as (qc' & _ & ->).
  cbn [dt_page Nat.add] in Hpage.
  unfold texts_disjoint, text_ends_by in *. cbn [dt_x dt_y dt_txt Nat.add] in *.
  destruct (slots_apart i j Hne ltac:(lia)) as [[Hy [Hx | Hx]] | Hy].
  - right. left. by rewrite <-Hx.
  - right. right. by rewrite <-Hx.
  - left. lia.
Qed.

(** ** Paths *)

Example path_join_examples :
  (fun w => (path_join w IMAGES_DIR, image_file (path_join w IMAGES_DIR) 0))
    <$> [ "."; "work"; "work/"; "/home/u//w"; "./w/."; "../w"; "/"; "//srv" ]%string
  = [ ("qrcodes", "qrcodes/0.png");
      ("work/qrcodes", "work/qrcodes/0.png");
      ("work/qrcodes", "work/qrcodes/0.png");
      ("/home/u/w/qrcodes", "/home/u/w/qrcodes/0.png");
      ("w/qrcodes", "w/qrcodes/0.png");
      ("../w/qrcodes", "../w/qrcodes/0.png");
      ("/qrcodes", "/qrcodes/0.png");
      ("//srv/qrcodes", "//srv/qrcodes/0.png") ]%string.
Proof. vm_compute. reflexivity. Qed.

(** * The layout claims *)

(** C4 (amended). The cursor starts at (10, 10) on the first page, and
    the [k]-th entry (from 0) is placed on page [1 + k / 12], in column
    [k mod 2] and row [(k mod 12) / 2].  Each row takes two entries, 95
    apart: after the second entry of a row the next entry is placed at
    [x = 10], 48 lower (for [QRCODE_H = 35]), or at (10, 10) of a new
    page when that would exceed 250.  Every entry is placed once, in
    input order, and up to twelve entries need no new page. *)
Theorem layout_wrap pdf_path (qrcode_list : list (string * string)) :
  let ps := placements (generate_doc pdf_path qrcode_list) in
  (∀ p, ps !! 0%nat = Some p → pl_page p = 1%nat ∧ pl_x p = 10 ∧ pl_y p = 10) ∧
  (∀ k qc, qrcode_list !! k = Some qc →
           ps !! k = Some (Placement (1 + k / 12) (slot_x k) (slot_y k) (snd qc))) ∧
  row_wrap_after 2 ps ∧
  QRCODE_H + 13 = 48 ∧
  pl_image <$> ps = qrcode_list.*2 ∧
  ((length qrcode_list ≤ 12)%nat →
   page_count (generate_doc pdf_path qrcode_list) = 1%nat).
Proof.
  cbv zeta. rewrite placements_generate_doc, page_count_generate_doc.
  split; [|split; [|split; [|split; [|split]]]].
  - intros p Hp. apply placed_lookup in Hp as (qc & _ & ->). done.
  - intros k qc Hk. apply placed_lookup. eauto.
  - apply placed_row_wrap.
  - reflexivity.
  - apply placed_images.
  - intros Hlen. f_equal. destruct qrcode_list as [|qc rest]; [done|].
    cbn [length pages_before] in *. apply Nat.div_small. lia.
Qed.

(** C4 as stated fails on ten entries: the second entry is the last of
    its row, so the rule "wrap after the 4th placement of a row" is
    broken by the third entry, placed at (10, 58). *)
Lemma layout_wrap_counterexample :
  placements (generate_doc "qrcodes.pdf" ten_entries) !! 2%nat
  = Some (Placement 1 10 58 "qrcodes/2.png") ∧
  ¬ row_wrap_after 4 (placements (generate_doc "qrcodes.pdf" ten_entries)).
Proof.
  split; [vm_compute; reflexivity|].
  intros H.
  specialize (H 1%nat (Placement 1 105 10 "qrcodes/1.png")
                (Placement 1 10 58 "qrcodes/2.png")).
  vm_compute in H. destruct (H eq_refl eq_refl) as (_ & Hx & _). discriminate.
Qed.

Example thirteenth_entry :
  placements (generate_doc "qrcodes.pdf" (ten_entries ++ take 3 ten_entries))
    !! 12%nat
  = Some (Placement 2 10 10 "qrcodes/2.png").
Proof. vm_compute. reflexivity. Qed.

Lemma string_width_replicate cw (c : ascii) (n : nat) :
  string_width cw (string_of_list_ascii (replicate n c)) = Z.of_nat n * cw c.
Proof.
  induction n as [|n IH]; [done|].
  cbn [replicate String.string_of_list_ascii string_width]. rewrite IH. lia.
Qed.

(** C7 (amended).  In the document of any list of entries: every entry
    is placed exactly once, images and captions in input order; no two
    images of a page intersect, with the width and height they are drawn
    with; the caption of an entry is on the page of its image, starts at
    its left edge, 2 below its bottom edge, and on no image of the page;
    captions that are at most 95 wide (the distance between the two
    columns) in the font of the document do not run into each other;
    every image is 35 by 35 on one of the twelve slots of its page,
    within the thresholds; and the number of pages is the least [m ≥ 1]
    with [12 m] slots for the entries. *)
Theorem layout_placement pdf_path (qrcode_list : list (string * string)) :
  let doc := generate_doc pdf_path qrcode_list in
  let imgs := drawn_images doc in
  let txts := drawn_texts doc in
  di_name <$> imgs = qrcode_list.*2 ∧
  dt_txt <$> txts = qrcode_list.*1 ∧
  (∀ i j p q, i ≠ j → imgs !! i = Some p → imgs !! j = Some q →
              di_page p = di_page q → images_disjoint p q) ∧
  (∀ k p t, imgs !! k = Some p → txts !! k = Some t →
            dt_page t = di_page p ∧ dt_x t = di_x p ∧
            dt_y t = di_y p + di_h p + 2) ∧
  (∀ k j t q, txts !! k = Some t → imgs !! j = Some q →
              dt_page t = di_page q → ¬ on_image (dt_x t) (dt_y t) q) ∧
  (∀ cw, (∀ t, t ∈ txts → text_ends_by cw (font_size doc) t (dt_x t + 95)) →
         entries_apart cw doc) ∧
  (∀ p, p ∈ imgs → di_w p = 35 ∧ di_h p = 35 ∧
                   (di_x p = 10 ∨ di_x p = 105) ∧ 10 ≤ di_y p ≤ 250) ∧
  (length qrcode_list ≤ 12 * page_count doc)%nat ∧
  (∀ m, (1 ≤ m)%nat → (length qrcode_list ≤ 12 * m)%nat →
        (page_count doc ≤ m)%nat).
Proof.
  cbv zeta. unfold entries_apart.
  rewrite drawn_images_generate_doc, drawn_texts_generate_doc,
    page_count_generate_doc, font_size_generate_doc.
  split; [|split; [|split; [|split; [|split; [|split; [|split; [|split]]]]]]].
  - apply images_at_names.
  - apply texts_at_captions.
  - apply images_at_disjoint.
  - intros k p t Hp Ht.
    apply images_at_lookup in Hp as (qc & _ & ->).
    apply texts_at_lookup in Ht as (qc' & _ & ->). done.
  - intros k j t q Ht Hq Hpage [_ Hy].
    apply texts_at_lookup in Ht as (qc & _ & ->).
    apply images_at_lookup in Hq as (qc' & _ & ->).
    cbn [dt_y di_y di_h Nat.add] in Hy.
    destruct (slot_rows k j); unfold QRCODE_H in *; lia.
  - intros cw Hfit. split; [apply images_at_disjoint|].
    intros i j t t'. by apply texts_at_disjoint.
  - intros p Hp. apply list_elem_of_lookup in Hp as [k Hp].
    apply images_at_lookup in Hp as (qc & _ & ->). cbn [di_x di_y di_w di_h Nat.add].
    destruct (slot_on_grid k) as (Hx & Hy & Hx'). done.
  - destruct qrcode_list as [|qc rest]; [cbn; lia|].
    cbn [length pages_before].
    pose proof (Nat.div_mod_eq (length rest) 12).
    pose proof (Nat.mod_upper_bound (length rest) 12). lia.
  - intros m Hm Hlen. destruct qrcode_list as [|qc rest]; [cbn; lia|].
    cbn [length pages_before] in *.
    assert (length rest / 12 < m)%nat; [|lia].
    apply Nat.Div0.div_lt_upper_bound. lia.
Qed.

Lemma layout_placement_witness :
  entries_apart (fun _ => 1000) (generate_doc "qrcodes.pdf" ten_entries).
Proof.
  apply (layout_placement "qrcodes.pdf" ten_entries).
  apply Forall_forall. rewrite font_size_generate_doc.
  unfold text_ends_by. vm_compute.
  repeat (apply Forall_cons; split; [discriminate|]). apply Forall_nil_2.
Defined.

(** C7 as stated fails on two entries of one row when the caption of
    the first is wider than 95: the captions are written on the same
    line, the first from 10 and the second from 105, and the first ends
    beyond 105.  Sixty [W] at 8 points are about 160 wide in Helvetica,
    the font FPDF takes for Arial, where [W] has the width 944. *)
Lemma layout_placement_counterexample :
  drawn_texts (generate_doc "qrcodes.pdf" wide_entries)
  = [DrawnText 1 10 47 wide_caption; DrawnText 1 105 47 "Zed"] ∧
  font_size (generate_doc "qrcodes.pdf" wide_entries) = 8 ∧
  (∀ cw, (∀ c, 0 ≤ cw c) → 944 ≤ cw "W"%char →
         ¬ text_ends_by cw 8 (DrawnText 1 10 47 wide_caption) 105 ∧
         ¬ entries_apart cw (generate_doc "qrcodes.pdf" wide_entries)).
Proof.
  split; [vm_compute; reflexivity|]. split; [vm_compute; reflexivity|].
  intros cw Hpos HW.
  assert (Hwide : ¬ text_ends_by cw 8 (DrawnText 1 10 47 wide_caption) 105).
  { unfold text_ends_by. cbn [dt_txt dt_x].
    unfold wide_caption. rewrite string_width_replicate. lia. }
  split; [done|].
  intros [_ Htexts].
  specialize (Htexts 0%nat 1%nat (DrawnText 1 10 47 wide_caption)
                (DrawnText 1 105 47 "Zed") ltac:(done) eq_refl eq_refl eq_refl).
  destruct Htexts as [Hy | [Hend | Hend]].
  - by apply Hy.
  - by rewrite font_size_generate_doc in Hend.
  - rewrite font_size_generate_doc in Hend.
    unfold text_ends_by in Hend. cbn [dt_txt dt_x string_width] in Hend.
    pose proof (Hpos "Z"%char). pose proof (Hpos "e"%char). pose proof (Hpos "d"%char).
    lia.
Qed.

(** * The pipeline claims *)


(** ** Secrets *)

Example secret_to_b32_hello :
  secret_to_b32 [72; 101; 108; 108; 111; 33; -34; -83; -66; -17]
  = "JBSWY3DPEHPK3PXP"%string.
Proof. reflexivity. Qed.

Example secret_to_b32_f : secret_to_b32 [102] = "MY======"%string.
Proof. reflexivity. Qed.

Example secret_to_b32_foob : secret_to_b32 [102; 111; 111; 98] = "MZXW6YQ="%string.
Proof. reflexivity. Qed.

Example b32decode_foob :
  b32decode_str "MZXW6YQ=" = Ok [102; 111; 111; 98].
Proof. vm_compute. reflexivity. Qed.

Example b32decode_neg :
  b32decode_str (secret_to_b32 [-1; -128; 127]) = Ok [255; 128; 127].
Proof. vm_compute. reflexivity. Qed.

Lemma length_string_of_list_ascii (l : list ascii) :
  String.length (string_of_list_ascii l) = length l.
Proof. induction l as [|c l IH]; [done|]. cbn. by rewrite IH. Qed.

(** C1. For every sequence [s] of 1 to 64 values in [-128, 127],
    [secret_to_b32] maps each [b] to [(b + 256) mod 256], the unsigned
    form of [b], Base32-encodes these bytes keeping the padding (the
    length of the result is a multiple of 8), and [b32decode] recovers
    exactly the unsigned form of [s] from the result. *)
Theorem secret_round_trip (s : list Z) :
  (1 ≤ length s ≤ 64)%nat →
  Forall (fun b => -128 ≤ b ≤ 127) s →
  secret_to_b32 s
    = string_of_list_ascii
        (Base32.b32encode (map (fun b => (b + 256) mod 256) s)) ∧
  map (fun b => (b + 256) mod 256) s = map unsigned_byte s ∧
  (String.length (secret_to_b32 s) mod 8 = 0)%nat ∧
  b32decode_str (secret_to_b32 s) = Ok (map unsigned_byte s).
Proof.
  intros _ Hrange.
  assert (Hnorm : map (fun b => (b + 256) mod 256) s = map unsigned_byte s).
  { apply Forall_fmap_ext_1. eapply Forall_impl; [exact Hrange|].
    intros b Hb. unfold unsigned_byte. cbn beta in Hb |- *.
    destruct (Z.ltb_spec b 0); Z.div_mod_to_equations; lia. }
  rewrite <-Hnorm, <-secret_bytes_mod.
  unfold secret_to_b32, b32decode_str. cbv zeta.
  split; [done|]. split; [done|]. split.
  - rewrite length_string_of_list_ascii. apply Base32Facts.length_b32encode.
  - rewrite String.list_ascii_of_string_of_list_ascii.
    apply Base32Facts.b32decode_b32encode, secret_bytes_range.
Qed.

Lemma secret_round_trip_witness :
  b32decode_str (secret_to_b32 [72; -34; 127; -128]) = Ok [72; 222; 127; 128].
Proof.
  apply (secret_round_trip [72; -34; 127; -128]).
  - simpl. lia.
  - repeat constructor; lia.
Defined.

(** ** Consequences of the loop invariant of [generate_images] *)

Lemma generate_images_saved images_path tokens k s :
  gen_saved (generate_images images_path tokens) !! k = Some s →
  ∃ tok label,
    tokens !! k = Some tok ∧
    token_uri (Z.of_nat k) tok = Ok (label, img_uri s) ∧
    img_file s = image_file images_path (Z.of_nat k).
Proof.
  unfold generate_images.
  destruct (generate_images_loop_inv images_path tokens 0 [] [])
    as (es & Hes & -> & _).
  cbn [app]. unfold saved_of. rewrite list_lookup_imap.
  destruct (es !! k) as [[label uri]|] eqn:Hk; [|done].
  cbn. intros [= <-]. cbn.
  destruct (Hes k _ Hk) as (tok & Htok & Huri).
  exists tok, label. by rewrite Z.add_0_l in Huri.
Qed.

Lemma generate_images_captions images_path tokens l :
  gen_result (generate_images images_path tokens) = Ok l →
  l.*1 = caption_or_empty <$> tokens.
Proof.
  unfold generate_images.
  destruct (generate_images_loop_inv images_path tokens 0 [] [])
    as (es & Hes & _ & Hres).
  intros Hl. rewrite Hl in Hres. destruct Hres as [Hlen ->]. cbn [app].
  apply list_eq. intros j. unfold entries_of.
  rewrite !list_lookup_fmap, list_lookup_imap.
  destruct (es !! j) as [[label uri]|] eqn:Hj.
  - destruct (Hes j _ Hj) as (tok & -> & Huri). cbn.
    apply token_uri_caption in Huri. unfold caption_or_empty. by rewrite Huri.
  - apply lookup_ge_None in Hj. rewrite Hlen in Hj.
    apply lookup_ge_None in Hj. by rewrite Hj.
Qed.


(** ** The shape of a URI *)

Lemma query_data_five k1 v1 k2 v2 k3 v3 k4 v4 k5 v5 q :
  query_data [(k1, v1); (k2, v2); (k3, v3); (k4, v4); (k5, v5)] = Ok q →
  ∃ q1 q2 q3 q4 q5,
    quote v1 = Ok q1 ∧ quote v2 = Ok q2 ∧ quote v3 = Ok q3 ∧
    quote v4 = Ok q4 ∧ quote v5 = Ok q5 ∧
    q = join "&" [ quote_str k1 +:+ "=" +:+ q1; quote_str k2 +:+ "=" +:+ q2;
                   quote_str k3 +:+ "=" +:+ q3; quote_str k4 +:+ "=" +:+ q4;
                   quote_str k5 +:+ "=" +:+ q5 ].
Proof.
  unfold query_data. cbn [query_items].
  destruct (quote v1) as [q1|]; [|done]. cbn [mbind result_bind].
  destruct (quote v2) as [q2|]; [|done]. cbn [mbind result_bind].
  destruct (quote v3) as [q3|]; [|done]. cbn [mbind result_bind].
  destruct (quote v4) as [q4|]; [|done]. cbn [mbind result_bind].
  destruct (quote v5) as [q5|]; [|done]. cbn [mbind result_bind].
  intros [= <-]. by exists q1, q2, q3, q4, q5.
Qed.

(** Whenever a record is encoded, the issuer of its URI is the resolved
    issuer, percent-encoded, in second position of the query. *)
Lemma token_uri_issuer i token label uri :
  token_uri i (JDict token) = Ok (label, uri) →
  ∃ ltype qlabel qsecret qissuer qalgo qdigits qperiod,
    quote (issuer_spec i token) = Ok qissuer ∧
    uri = "otpauth://" +:+ ltype +:+ "/" +:+ qlabel +:+ "?" +:+
          join "&" [ "secret=" +:+ qsecret; "issuer=" +:+ qissuer;
                     "algorithm=" +:+ qalgo; "digits=" +:+ qdigits;
                     "period=" +:+ qperiod ].
Proof.
  unfold token_uri. cbn [as_dict mbind result_bind].
  rewrite issuer_of_spec. cbn [mbind result_bind].
  destruct (token_item token "secret"); [|done]. cbn [mbind result_bind].
  destruct (call_secret_to_b32 _); [|done]. cbn [mbind result_bind].
  destruct (token_item token "algo"); [|done]. cbn [mbind result_bind].
  destruct (token_item token "digits"); [|done]. cbn [mbind result_bind].
  destruct (token_item token "period"); [|done]. cbn [mbind result_bind].
  destruct (label_of token); [|done]. cbn [mbind result_bind].
  destruct (token_item token "type"); [|done]. cbn [mbind result_bind].
  destruct (py_lower _) as [ltype|]; [|done]. cbn [mbind result_bind].
  destruct (quote _) as [qlabel|]; [|done]. cbn [mbind result_bind].
  destruct (query_data _) as [q|] eqn:Hq; [|done]. cbn [mbind result_bind].
  intros [= _ <-].
  apply query_data_five in Hq
    as (q1 & q2 & q3 & q4 & q5 & _ & H2 & _ & _ & _ & ->).
  by exists ltype, qlabel, q1, q2, q3, q4, q5.
Qed.

(** C2. The issuer of a record is the first non-empty field among
    [issuerInt], [issuerExt], [issuerAlt], [labelAlt], in this order, and
    [Unknown<i>] when all four are empty or absent, where [i] is the
    zero-based position of the record among the records of the run: the
    [k]-th URI rendered by [generate_images] is the URI of the [k]-th
    record, whose issuer parameter is the issuer resolved with [i = k]. *)
Theorem issuer_resolution images_path (tokens : list json) (k : nat)
    (token : gmap string pyval) (s : saved_image) :
  tokens !! k = Some (JDict token) →
  gen_saved (generate_images images_path tokens) !! k = Some s →
  issuer_of (Z.of_nat k) token = Ok (issuer_spec (Z.of_nat k) token) ∧
  ((∀ f, f ∈ issuer_fields → nonempty_field token f = None) →
   issuer_spec (Z.of_nat k) token = VStr ("Unknown" +:+ pretty (Z.of_nat k))) ∧
  ∃ ltype qlabel qsecret qissuer qalgo qdigits qperiod,
    quote (issuer_spec (Z.of_nat k) token) = Ok qissuer ∧
    img_uri s
    = "otpauth://" +:+ ltype +:+ "/" +:+ qlabel +:+ "?" +:+
      join "&" [ "secret=" +:+ qsecret; "issuer=" +:+ qissuer;
                 "algorithm=" +:+ qalgo; "digits=" +:+ qdigits;
                 "period=" +:+ qperiod ].
Proof.
  intros Hk Hs. split; [apply issuer_of_spec|]. split.
  - intros Hnone. unfold issuer_spec, issuer_fields. cbn [omap list_omap].
    rewrite !Hnone by (unfold issuer_fields; set_solver). done.
  - apply generate_images_saved in Hs as (tok & label & Htok & Huri & _).
    rewrite Hk in Htok. injection Htok as <-.
    by apply token_uri_issuer in Huri.
Qed.

Lemma issuer_resolution_witness :
  issuer_of 1 tok_alice = Ok (VStr "Unknown1") ∧
  issuer_of 0 tok_acme = Ok (VStr "Acme").
Proof.
  split.
  - apply (issuer_resolution "qrcodes" [JDict tok_acme; JDict tok_alice] 1
             tok_alice
             (SavedImage
                "otpauth://totp/alice?secret=AEBAG%3D%3D%3D&issuer=Unknown1&algorithm=SHA1&digits=6&period=30"
                "qrcodes/1.png")); vm_compute; reflexivity.
  - vm_compute; reflexivity.
Defined.

Example issuer_alt_before_label_alt :
  issuer_spec 7 (<["issuerAlt"%string := VStr "Alt"]>
                   (<["labelAlt"%string := VStr "Label"]> tok_alice))
  = VStr "Alt".
Proof. vm_compute. reflexivity. Qed.

(** C3 (amended). For a record with its six fields, a type written in
    ASCII characters (as [TOTP] and [HOTP] are) and a textual issuer,
    [token_uri] returns the caption and the URI
    [otpauth://<type lowercased>/<quoted caption>?secret=..&issuer=..&algorithm=..&digits=..&period=..]
    with every value percent-encoded and the parameters in this order;
    the caption is [<issuerExt>:<label>] when [issuerExt] is present and
    non-empty, and [<label>] otherwise.  This is the URI
    [generate_images] renders for the record. *)
Theorem uri_construction images_path (tokens : list json) (k : nat)
    (token : gmap string pyval) (caption uri : string) :
  tokens !! k = Some (JDict token) →
  expected_uri caption_nonempty_ext (Z.of_nat k) token = Some (caption, uri) →
  token_uri (Z.of_nat k) (JDict token) = Ok (VStr caption, uri) ∧
  ∀ s, gen_saved (generate_images images_path tokens) !! k = Some s →
       img_uri s = uri.
Proof.
  intros Hk Hexp. apply token_uri_expected in Hexp. split; [done|].
  intros s Hs.
  apply generate_images_saved in Hs as (tok & label & Htok & Huri & _).
  rewrite Hk in Htok. injection Htok as <-. congruence.
Qed.

Lemma uri_construction_witness :
  token_uri 0 (JDict tok_acme)
  = Ok (VStr "Acme:alice@x.com",
        "otpauth://totp/Acme%3Aalice%40x.com?secret=AEBAG%3D%3D%3D&issuer=Acme&algorithm=SHA1&digits=6&period=30"%string).
Proof.
  apply (uri_construction "qrcodes" [JDict tok_acme] 0 tok_acme);
    vm_compute; reflexivity.
Defined.

(** C3 as stated fails on a record whose [issuerExt] is present and
    empty: the caption is the label alone, not [:<label>]. *)
Lemma uri_construction_counterexample :
  tok_empty_ext !! "issuerExt"%string = Some (VStr EmptyString) ∧
  expected_uri caption_present_ext 0 tok_empty_ext
  = Some (":alice"%string,
          "otpauth://totp/%3Aalice?secret=AEBAG%3D%3D%3D&issuer=Unknown0&algorithm=SHA1&digits=6&period=30"%string) ∧
  token_uri 0 (JDict tok_empty_ext)
  = Ok (VStr "alice",
        "otpauth://totp/alice?secret=AEBAG%3D%3D%3D&issuer=Unknown0&algorithm=SHA1&digits=6&period=30"%string) ∧
  ¬ (∀ caption uri,
       expected_uri caption_present_ext 0 tok_empty_ext = Some (caption, uri) →
       token_uri 0 (JDict tok_empty_ext) = Ok (VStr caption, uri)).
Proof.
  split; [reflexivity|]. split; [vm_compute; reflexivity|].
  split; [vm_compute; reflexivity|].
  intros H. specialize (H _ _ eq_refl). vm_compute in H. discriminate.
Qed.

(** C5 (amended). The URI is a function of the record and of its
    position in the run; it is a function of the record alone when the
    record has a non-empty issuer field: two equal records then yield
    identical URIs wherever they stand. *)
Theorem uri_determinism (i j : Z) (t1 t2 : gmap string pyval) :
  t1 = t2 → i = j ∨ has_issuer t1 = true →
  token_uri i (JDict t1) = token_uri j (JDict t2).
Proof.
  intros <- [<- | Hissuer]; [done|]. by apply token_uri_index.
Qed.

Lemma uri_determinism_witness :
  token_uri 0 (JDict tok_acme) = token_uri 5 (JDict tok_acme).
Proof.
  apply (uri_determinism 0 5 tok_acme tok_acme); [reflexivity|].
  right. vm_compute. reflexivity.
Defined.

(** C5 as stated fails: two equal records without issuer, encoded in one
    run, get different URIs. *)
Lemma uri_determinism_counterexample :
  img_uri <$> gen_saved (generate_images "qrcodes" [JDict tok_alice; JDict tok_alice])
  = [ "otpauth://totp/alice?secret=AEBAG%3D%3D%3D&issuer=Unknown0&algorithm=SHA1&digits=6&period=30";
      "otpauth://totp/alice?secret=AEBAG%3D%3D%3D&issuer=Unknown1&algorithm=SHA1&digits=6&period=30"
    ]%string ∧
  token_uri 0 (JDict tok_alice) ≠ token_uri 1 (JDict tok_alice).
Proof. split; [vm_compute; reflexivity | vm_compute; discriminate]. Qed.

(** A run that writes a document: the records were decoded, every one
    was encoded, and the document is laid out from the sorted entries. *)
Lemma run_qrcodes_ok E workdir fs doc :
  run_result (run_qrcodes E workdir fs) = Ok doc →
  ∃ tokens l,
    parse_tokens_from_xml E fs = Ok tokens ∧
    gen_result (generate_images (path_join workdir IMAGES_DIR) tokens) = Ok l ∧
    run_saved (run_qrcodes E workdir fs)
    = gen_saved (generate_images (path_join workdir IMAGES_DIR) tokens) ∧
    doc = generate_doc (path_join workdir PDF_FILE) (sorted_by_caption l).
Proof.
  unfold run_qrcodes.
  destruct (parse_tokens_from_xml E fs) as [tokens|]; [|done].
  destruct (gen_result _) as [l|] eqn:Hl; [|done].
  cbn. intros [= <-]. by exists tokens, l.
Qed.

(** C6.  In a run that writes a document, the entries of the document,
    in the order in which they are placed, are the list handed to
    [generate_doc]; this list is in ascending lexicographic order of
    the captions and is a permutation of the entries that
    [generate_images] returned for the decoded records, whose captions
    are the captions of the records.  The order of the records in the
    credential file does not matter: two runs that decode the same
    records in different orders place the same captions in the same
    order. *)
Theorem caption_sort_order E E' workdir fs fs' (tokens tokens' : list json)
    (doc doc' : list pdf_cmd) :
  parse_tokens_from_xml E fs = Ok tokens →
  parse_tokens_from_xml E' fs' = Ok tokens' →
  tokens ≡ₚ tokens' →
  run_result (run_qrcodes E workdir fs) = Ok doc →
  run_result (run_qrcodes E' workdir fs') = Ok doc' →
  ∃ l handed,
    gen_result (generate_images (path_join workdir IMAGES_DIR) tokens) = Ok l ∧
    l.*1 = caption_or_empty <$> tokens ∧
    doc = generate_doc (path_join workdir PDF_FILE) handed ∧
    doc_entries doc = handed ∧
    StronglySorted caption_le handed ∧
    handed ≡ₚ l ∧
    (doc_entries doc).*1 = (doc_entries doc').*1.
Proof.
  intros Hparse Hparse' Hperm Hdoc Hdoc'.
  apply run_qrcodes_ok in Hdoc as (toks & l & Htoks & Hl & _ & ->).
  apply run_qrcodes_ok in Hdoc' as (toks' & l' & Htoks' & Hl' & _ & ->).
  assert (toks = tokens) as -> by congruence.
  assert (toks' = tokens') as -> by congruence.
  exists l, (sorted_by_caption l).
  rewrite !doc_entries_generate_doc.
  pose proof (generate_images_captions _ _ _ Hl) as Hcap.
  pose proof (generate_images_captions _ _ _ Hl') as Hcap'.
  repeat split; try done.
  - apply sorted_by_caption_sorted.
  - apply sorted_by_caption_perm.
  - apply sorted_captions_unique. rewrite Hcap, Hcap'.
    by apply fmap_Permutation.
Qed.

Lemma caption_sort_order_witness :
  (doc_entries
     (generate_doc "qrcodes.pdf"
        [ ("Acme:alice@x.com", "qrcodes/1.png"); ("Zed", "qrcodes/0.png") ])).*1
  = (doc_entries
       (generate_doc "qrcodes.pdf"
          [ ("Acme:alice@x.com", "qrcodes/0.png"); ("Zed", "qrcodes/1.png") ])).*1.
Proof.
  destruct (caption_sort_order order_externals order_externals "."
              (WorkdirFiles None (Some zed_acme_xml))
              (WorkdirFiles None (Some acme_zed_xml))
              [JDict tok_zed; JDict tok_acme] [JDict tok_acme; JDict tok_zed]
              (generate_doc "qrcodes.pdf"
                 [ ("Acme:alice@x.com", "qrcodes/1.png"); ("Zed", "qrcodes/0.png") ])
              (generate_doc "qrcodes.pdf"
                 [ ("Acme:alice@x.com", "qrcodes/0.png"); ("Zed", "qrcodes/1.png") ]))
    as (l & handed & _ & _ & _ & _ & _ & _ & H).
  - vm_compute. reflexivity.
  - vm_compute. reflexivity.
  - apply Permutation_swap.
  - vm_compute. reflexivity.
  - vm_compute. reflexivity.
  - exact H.
Defined.

(** The example of the specification: records captioned [Zed] and
    [Acme...], decoded in this order, are placed [Acme...] first. *)
Example run_zed_acme :
  doc_entries <$> match run_result (run_qrcodes order_externals "."
                                 (WorkdirFiles None (Some zed_acme_xml))) with
                  | Ok doc => Some doc | Err _ => None end
  = Some [ ("Acme:alice@x.com", "qrcodes/1.png"); ("Zed", "qrcodes/0.png") ]%string.
Proof. vm_compute. reflexivity. Qed.

Example sorted_zed_acme :
  sorted_by_caption [("Zed", "qrcodes/0.png"); ("Acme", "qrcodes/1.png")]
  = [("Acme", "qrcodes/1.png"); ("Zed", "qrcodes/0.png")]%string.
Proof. reflexivity. Qed.

(** ** The pipeline *)

Lemma parse_tokens_from_xml_present E fs content :
  tokens_file fs = Some content →
  parse_tokens_from_xml E fs
  = match xml_findall_string E content with
    | None => Err XMLParseError
    | Some elems => parse_elems E elems
    end.
Proof. intros H. unfold parse_tokens_from_xml. rewrite H. cbn. by rewrite H. Qed.

Lemma run_qrcodes_parse_error E workdir fs err :
  parse_tokens_from_xml E fs = Err err →
  run_qrcodes E workdir fs = RunOutcome [] (Err err).
Proof. intros H. unfold run_qrcodes. by rewrite H. Qed.





(** C9. Unwrapping reads the backup from its 25th byte on, whatever the
    first 24 are, and raises when these bytes are no compressed stream
    ([zlib.error]) or decompress to nothing ([tarfile] refuses an empty
    archive): the exception ends the run before the credential file is
    parsed, whatever the XML and JSON libraries would do, and no URI is
    produced. *)
Theorem container_corruption E workdir fs content :
  tokens_file fs = None →
  backup_file fs = Some content → (0 < length content)%nat →
  tar_extract E [] APK_PATH = Err TarReadError →
  zlib_decompress E (drop 24 content) = None ∨
  zlib_decompress E (drop 24 content) = Some [] →
  ∃ err, (err = ZlibError ∨ err = TarReadError) ∧
         extract_tokens_file E fs = Err err ∧
         parse_tokens_from_xml E fs = Err err ∧
         run_qrcodes E workdir fs = RunOutcome [] (Err err).
Proof.
  intros Htok Hbak Hlen Htar Hz.
  assert (Hhas : has_backup fs = true).
  { unfold has_backup. rewrite Hbak. by apply bool_decide_eq_true_2. }
  assert (Hex : ∃ err, (err = ZlibError ∨ err = TarReadError) ∧
                       extract_tokens_file E fs = Err err).
  { unfold extract_tokens_file. rewrite Hhas. cbn [mbind result_bind].
    rewrite Hbak. destruct Hz as [-> | ->]; cbn [mbind result_bind].
    - exists ZlibError. auto.
    - rewrite Htar. exists TarReadError. auto. }
  destruct Hex as (err & Herr & Hex). exists err.
  assert (Hparse : parse_tokens_from_xml E fs = Err err).
  { unfold parse_tokens_from_xml. rewrite Htok, Hex. done. }
  repeat split; try done. by apply run_qrcodes_parse_error.
Qed.

Lemma container_corruption_witness :
  ∃ err, (err = ZlibError ∨ err = TarReadError) ∧
         extract_tokens_file demo_externals
           (WorkdirFiles (Some corrupt_backup) None) = Err err ∧
         parse_tokens_from_xml demo_externals
           (WorkdirFiles (Some corrupt_backup) None) = Err err ∧
         run_qrcodes demo_externals "."
           (WorkdirFiles (Some corrupt_backup) None) = RunOutcome [] (Err err).
Proof.
  apply (container_corruption demo_externals "."
           (WorkdirFiles (Some corrupt_backup) None) corrupt_backup).
  - reflexivity.
  - reflexivity.
  - vm_compute. lia.
  - reflexivity.
  - left. vm_compute. reflexivity.
Defined.

Example hollow_backup_run :
  run_qrcodes demo_externals "." (WorkdirFiles (Some hollow_backup) None)
  = RunOutcome [] (Err TarReadError).
Proof. vm_compute. reflexivity. Qed.

Example corrupt_backup_run :
  run_qrcodes demo_externals "." (WorkdirFiles (Some corrupt_backup) None)
  = RunOutcome [] (Err ZlibError).
Proof. vm_compute. reflexivity. Qed.

(** C10. On a credential file that is an XML document without any
    [<string>] entry, [parse_tokens_from_xml] raises [UnboundLocalError]
    for the variable [name] instead of returning an empty list; it
    returns only when the document has at least one [<string>] entry,
    and then it does return if every entry other than the reserved one
    holds JSON. *)
Theorem empty_credential_file E fs content :
  tokens_file fs = Some content →
  (xml_findall_string E content = Some [] →
   parse_tokens_from_xml E fs = Err (UnboundLocalError "name")) ∧
  (∀ tokens, parse_tokens_from_xml E fs = Ok tokens →
             ∃ e elems, xml_findall_string E content = Some (e :: elems)) ∧
  (∀ e elems, xml_findall_string E content = Some (e :: elems) →
              all_json E (e :: elems) →
              is_ok (parse_tokens_from_xml E fs) = true).
Proof.
  intros Hfile.
  rewrite (parse_tokens_from_xml_present E fs content Hfile).
  split; [|split].
  - by intros ->.
  - intros tokens. destruct (xml_findall_string E content) as [[|e elems]|];
      [done | eauto | done].
  - intros e elems -> Hall. by apply parse_elems_total.
Qed.

Lemma empty_credential_file_witness :
  parse_tokens_from_xml demo_externals (WorkdirFiles None (Some empty_tokens_xml))
  = Err (UnboundLocalError "name").
Proof.
  apply (empty_credential_file demo_externals
           (WorkdirFiles None (Some empty_tokens_xml)) empty_tokens_xml eq_refl).
  vm_compute. reflexivity.
Defined.

Example only_token_order E :
  parse_elems E [XmlString (Some "tokenOrder"%string) (Some "[]"%string)] = Ok [].
Proof. reflexivity. Qed.

(** * Further properties of the code *)

(** ** Encoded secrets *)

Lemma tab_in_alphabet v : 0 ≤ v < 32 → Base32.tab v ∈ Base32.alphabet.
Proof.
  intros Hv. unfold Base32.tab. apply list_elem_of_In, nth_In.
  change (length Base32.alphabet) with 32%nat. lia.
Qed.

Lemma quantum_in_alphabet c :
  Forall (fun a => a ∈ Base32.alphabet) (Base32.quantum c).
Proof.
  unfold Base32.quantum.
  repeat (apply Forall_cons; split;
          [apply tab_in_alphabet, Base32Facts.land31_bound|]).
  apply Forall_nil_2.
Qed.

Lemma enc_chunks_in_alphabet cs :
  Forall (fun a => a ∈ Base32.alphabet) (enc_chunks cs).
Proof.
  induction cs as [|ch cs IH]; cbn [enc_chunks]; [constructor|].
  apply Forall_app; split; [apply quantum_in_alphabet | done].
Qed.

(** The encoding of any bytes: digits of the alphabet, then the pads. *)
Lemma b32encode_digits_pads (s : list Z) :
  ∃ digits,
    Base32.b32encode s = digits ++ replicate (pad_count (length s)) Base32.pad ∧
    Forall (fun a => a ∈ Base32.alphabet) digits ∧
    Forall is_digit_char digits ∧
    (length digits + pad_count (length s) = 8 * ((length s + 4) / 5))%nat.
Proof.
  destruct (Base32Facts.split_chunks s) as (cs & tail & -> & Hlen).
  rewrite Base32Facts.b32encode_shape by done.
  unfold pad_count. rewrite Base32Facts.length_mod5 by done.
  rewrite length_app, Base32Facts.length_flat.
  assert (Hdiv : ∀ t, (t < 5)%nat →
            ((5 * length cs + t + 4) / 5 = length cs + (t + 4) / 5)%nat).
  { intros t Ht.
    replace (5 * length cs + t + 4)%nat with (t + 4 + length cs * 5)%nat by lia.
    rewrite Nat.div_add by lia. lia. }
  rewrite Hdiv by done.
  pose proof (enc_chunks_in_alphabet cs) as Ha.
  pose proof (Base32Facts.enc_chunks_chars cs) as Hd.
  pose proof (Base32Facts.length_enc_chunks cs) as Hl.
  destruct tail as [|b0 [|b1 [|b2 [|b3 [|b4 tail]]]]];
    cbn [length] in Hlen; try lia; cbn [last_part length].
  - exists (enc_chunks cs). rewrite !app_nil_r.
    repeat split; try done. rewrite Hl. cbn. lia.
  - eexists (enc_chunks cs ++ take 2 (Base32.quantum _)).
    rewrite <-app_assoc. split; [done|].
    split; [apply Forall_app; split; [done|apply Forall_take, quantum_in_alphabet]|].
    split; [apply Forall_app; split; [done|apply Forall_take, Base32Facts.quantum_chars]|].
    rewrite length_app, Hl. cbn. lia.
  - eexists (enc_chunks cs ++ take 4 (Base32.quantum _)).
    rewrite <-app_assoc. split; [done|].
    split; [apply Forall_app; split; [done|apply Forall_take, quantum_in_alphabet]|].
    split; [apply Forall_app; split; [done|apply Forall_take, Base32Facts.quantum_chars]|].
    rewrite length_app, Hl. cbn. lia.
  - eexists (enc_chunks cs ++ take 5 (Base32.quantum _)).
    rewrite <-app_assoc. split; [done|].
    split; [apply Forall_app; split; [done|apply Forall_take, quantum_in_alphabet]|].
    split; [apply Forall_app; split; [done|apply Forall_take, Base32Facts.quantum_chars]|].
    rewrite length_app, Hl. cbn. lia.
  - eexists (enc_chunks cs ++ take 7 (Base32.quantum _)).
    rewrite <-app_assoc. split; [done|].
    split; [apply Forall_app; split; [done|apply Forall_take, quantum_in_alphabet]|].
    split; [apply Forall_app; split; [done|apply Forall_take, Base32Facts.quantum_chars]|].
    rewrite length_app, Hl. cbn. lia.
Qed.

(** X1. The text [secret_to_b32] returns for [n] values has
    [8 * ceil(n / 5)] characters: characters of the Base32 alphabet
    followed by 0, 6, 4, 3 or 1 pads for [n mod 5 = 0, 1, 2, 3, 4]. *)
Theorem secret_to_b32_shape (secret : list Z) :
  ∃ digits,
    list_ascii_of_string (secret_to_b32 secret)
    = digits ++ replicate (pad_count (length secret)) Base32.pad ∧
    Forall (fun a => a ∈ Base32.alphabet) digits ∧
    String.length (secret_to_b32 secret)
    = (8 * ((length secret + 4) / 5))%nat.
Proof.
  unfold secret_to_b32. cbv zeta.
  rewrite String.list_ascii_of_string_of_list_ascii, length_string_of_list_ascii.
  destruct (b32encode_digits_pads (secret_bytes secret))
    as (digits & Henc & Ha & _ & Hlen).
  unfold secret_bytes in *. rewrite length_map in *.
  exists digits. split; [done|]. split; [done|].
  by rewrite Henc, length_app, length_replicate.
Qed.

Lemma b32decode_secret_to_b32 (secret : list Z) :
  b32decode_str (secret_to_b32 secret) = Ok (secret_bytes secret).
Proof.
  unfold secret_to_b32, b32decode_str. cbv zeta.
  rewrite String.list_ascii_of_string_of_list_ascii.
  apply Base32Facts.b32decode_b32encode, secret_bytes_range.
Qed.

(** X2. Two secrets get the same text exactly when their values agree
    modulo 256, whatever integers they hold: decoding the text returns
    the values modulo 256. *)
Theorem secret_to_b32_inj (s1 s2 : list Z) :
  secret_to_b32 s1 = secret_to_b32 s2 ↔
  map (fun b => b mod 256) s1 = map (fun b => b mod 256) s2.
Proof.
  assert (Hmod : ∀ s, secret_bytes s = map (fun b => b mod 256) s).
  { intros s. rewrite secret_bytes_mod. apply map_ext. intros b.
    rewrite <-Z.add_mod_idemp_r by lia. change (256 mod 256) with 0.
    by rewrite Z.add_0_r. }
  rewrite <-!Hmod. split.
  - intros Heq. apply (f_equal b32decode_str) in Heq.
    rewrite !b32decode_secret_to_b32 in Heq. by injection Heq.
  - intros Heq. unfold secret_to_b32. by rewrite Heq.
Qed.


(** ** Percent-encoding *)

Lemma append_assoc (s t u : string) : (s +:+ t) +:+ u = s +:+ (t +:+ u).
Proof.
  induction s as [|c s IH]; [done|].
  change (String c ((s +:+ t) +:+ u) = String c (s +:+ (t +:+ u))).
  by rewrite IH.
Qed.

Lemma quote_str_app (s t : string) :
  quote_str (s +:+ t) = quote_str s +:+ quote_str t.
Proof.
  induction s as [|c s IH]; [done|].
  change (String c s +:+ t) with (String c (s +:+ t)).
  cbn [quote_str]. by rewrite IH, append_assoc.
Qed.

Lemma quote_str_safe (s : string) :
  Forall (fun c => is_safe c = true) (list_ascii_of_string s) →
  quote_str s = s.
Proof.
  induction s as [|c s IH]; [done|].
  cbn [String.list_ascii_of_string quote_str]. intros H.
  apply Forall_cons in H as [Hc Hs].
  unfold quote_byte. rewrite Hc, IH by done. done.
Qed.

Lemma list_ascii_app (s t : string) :
  list_ascii_of_string (s +:+ t)
  = list_ascii_of_string s ++ list_ascii_of_string t.
Proof.
  induction s as [|c s IH]; [done|].
  change (c :: list_ascii_of_string (s +:+ t)
          = c :: (list_ascii_of_string s ++ list_ascii_of_string t)).
  by rewrite IH.
Qed.





Lemma percent_not_safe : is_safe "%" = false.
Proof. reflexivity. Qed.

Lemma hex_pair_table :
  forallb (fun n1 =>
    forallb (fun n2 =>
      implb (Ascii.eqb (hex_digit (n1 / 16)) (hex_digit (n2 / 16)) &&
             Ascii.eqb (hex_digit (n1 mod 16)) (hex_digit (n2 mod 16)))
            (n1 =? n2)%nat) (seq 0 256)) (seq 0 256) = true.
Proof. vm_compute. reflexivity. Qed.

Lemma hex_pair_inj (c1 c2 : ascii) :
  hex_digit (nat_of_ascii c1 / 16) = hex_digit (nat_of_ascii c2 / 16) →
  hex_digit (nat_of_ascii c1 mod 16) = hex_digit (nat_of_ascii c2 mod 16) →
  c1 = c2.
Proof.
  intros H1 H2.
  pose proof hex_pair_table as Ht.
  rewrite forallb_forall in Ht.
  assert (Hin1 : In (nat_of_ascii c1) (seq 0 256))
    by (apply in_seq; pose proof (nat_ascii_bounded c1); lia).
  assert (Hin2 : In (nat_of_ascii c2) (seq 0 256))
    by (apply in_seq; pose proof (nat_ascii_bounded c2); lia).
  specialize (Ht _ Hin1). rewrite forallb_forall in Ht.
  specialize (Ht _ Hin2).
  rewrite H1, H2, !(proj2 (Ascii.eqb_eq _ _) eq_refl) in Ht.
  cbn [andb implb] in Ht. apply Nat.eqb_eq in Ht.
  rewrite <-(ascii_nat_embedding c1), <-(ascii_nat_embedding c2).
  by rewrite Ht.
Qed.

Lemma quote_str_cons_inj (c1 c2 : ascii) (r1 r2 : string) :
  quote_byte c1 +:+ r1 = quote_byte c2 +:+ r2 → c1 = c2 ∧ r1 = r2.
Proof.
  unfold quote_byte.
  destruct (is_safe c1) eqn:H1, (is_safe c2) eqn:H2; cbn; intros Heq.
  - by injection Heq.
  - injection Heq as -> _. by rewrite percent_not_safe in H1.
  - injection Heq as <- _. by rewrite percent_not_safe in H2.
  - injection Heq as Ha Hb Hr.
    split; [|done]. by apply hex_pair_inj.
Qed.

(** X4. [quote_str] is injective: two different texts never get the same
    percent-encoding. *)
Theorem quote_str_inj (s1 s2 : string) :
  quote_str s1 = quote_str s2 ↔ s1 = s2.
Proof.
  split; [|by intros ->].
  revert s2. induction s1 as [|c1 s1 IH]; intros [|c2 s2]; cbn [quote_str].
  - done.
  - unfold quote_byte. destruct (is_safe c2); discriminate.
  - unfold quote_byte. destruct (is_safe c1); discriminate.
  - intros Heq. apply quote_str_cons_inj in Heq as [-> Heq].
    f_equal. by apply IH.
Qed.

Lemma alphabet_safe (c : ascii) : c ∈ Base32.alphabet → is_safe c = true.
Proof.
  intros Hin. unfold Base32.alphabet in Hin. cbn in Hin.
  repeat (apply elem_of_cons in Hin as [-> | Hin]; [reflexivity|]).
  by apply elem_of_nil in Hin.
Qed.

Lemma quote_str_pads (k : nat) :
  quote_str (string_of_list_ascii (replicate k Base32.pad))
  = repeat_string k quoted_pad.
Proof.
  induction k as [|k IH]; [done|].
  change (quote_byte Base32.pad
          +:+ quote_str (string_of_list_ascii (replicate k Base32.pad))
          = quoted_pad +:+ repeat_string k quoted_pad).
  by rewrite IH.
Qed.

Lemma string_of_list_ascii_app (l1 l2 : list ascii) :
  string_of_list_ascii (l1 ++ l2)
  = string_of_list_ascii l1 +:+ string_of_list_ascii l2.
Proof.
  induction l1 as [|c l1 IH]; [done|].
  change (String c (string_of_list_ascii (l1 ++ l2))
          = String c (string_of_list_ascii l1 +:+ string_of_list_ascii l2)).
  by rewrite IH.
Qed.

(** X5. In a URI the secret is its Base32 digits, unchanged, followed by
    one [%3D] for every pad character: the padding is kept and
    percent-encoded. *)
Theorem quoted_secret (secret : list Z) :
  ∃ digits,
    secret_to_b32 secret
    = digits +:+ string_of_list_ascii
                   (replicate (pad_count (length secret)) Base32.pad) ∧
    Forall (fun a => a ∈ Base32.alphabet) (list_ascii_of_string digits) ∧
    quote_str (secret_to_b32 secret)
    = digits +:+ repeat_string (pad_count (length secret)) quoted_pad.
Proof.
  unfold secret_to_b32. cbv zeta.
  destruct (b32encode_digits_pads (secret_bytes secret))
    as (digits & Henc & Ha & _ & _).
  unfold secret_bytes in *. rewrite length_map in Henc.
  exists (string_of_list_ascii digits).
  rewrite Henc, string_of_list_ascii_app.
  rewrite String.list_ascii_of_string_of_list_ascii.
  split; [done|]. split; [done|].
  rewrite quote_str_app, quote_str_pads. f_equal.
  apply quote_str_safe. rewrite String.list_ascii_of_string_of_list_ascii.
  eapply Forall_impl; [exact Ha|]. apply alphabet_safe.
Qed.


(** ** Records and their URIs *)

Lemma token_get_insert_ne token k v k' :
  k ≠ k' → token_get (<[k:=v]> token) k' = token_get token k'.
Proof. intros. unfold token_get. by rewrite lookup_insert_ne. Qed.

Lemma token_item_insert_ne token k v k' :
  k ≠ k' → token_item (<[k:=v]> token) k' = token_item token k'.
Proof. intros. unfold token_item. by rewrite lookup_insert_ne. Qed.

(** X6. A record's caption and URI depend on ten of its fields only: any
    other field, such as the [counter] of a counter-based token, is
    ignored, whatever its value. *)
Theorem token_uri_other_key (i : Z) (token : gmap string pyval)
    (k : string) (v : pyval) :
  k ∉ used_keys →
  token_uri i (JDict (<[k:=v]> token)) = token_uri i (JDict token).
Proof.
  intros Hk.
  assert (Hne : ∀ k', k' ∈ used_keys → k ≠ k') by (intros k' Hin ->; done).
  unfold token_uri, issuer_of, label_of. cbn [as_dict mbind result_bind].
  rewrite !token_get_insert_ne, !token_item_insert_ne
    by (apply Hne; unfold used_keys, issuer_fields, required_fields;
        cbn [app]; repeat ((by left) || right)).
  done.
Qed.

Lemma token_uri_other_key_witness :
  token_uri 0 (JDict (<["counter"%string := VInt 41]> tok_alice))
  = token_uri 0 (JDict tok_alice).
Proof.
  apply (token_uri_other_key 0 tok_alice "counter" (VInt 41)).
  unfold used_keys, issuer_fields, required_fields. cbn [app].
  intros Hin. repeat (apply elem_of_cons in Hin as [? | Hin]; [done|]).
  by apply elem_of_nil in Hin.
Defined.


Lemma token_item_delete_eq token k :
  token_item (delete k token) k = Err (KeyError k).
Proof. unfold token_item. by rewrite lookup_delete_eq. Qed.

Lemma token_item_delete_ne token k k' v :
  k ≠ k' → token !! k' = Some v → token_item (delete k token) k' = Ok v.
Proof. intros Hne Hv. unfold token_item. by rewrite lookup_delete_ne, Hv. Qed.

Lemma label_of_delete token f :
  f ≠ "issuerExt"%string → f ≠ "label"%string →
  label_of (delete f token) = label_of token.
Proof.
  intros H1 H2. unfold label_of, token_get, token_item.
  by rewrite !lookup_delete_ne.
Qed.

Lemma label_of_delete_label token :
  label_of (delete "label"%string token) = Err (KeyError "label").
Proof.
  unfold label_of.
  destruct (truthy_opt _) eqn:E.
  - apply truthy_opt_nonempty in E as (v & _ & ->). cbn [mbind result_bind].
    by rewrite token_item_delete_eq.
  - apply token_item_delete_eq.
Qed.

(** X7. A record that has its six fields but for one raises [KeyError]
    for exactly that field. *)
Theorem token_uri_missing_key (i : Z) (token : gmap string pyval) (f : string)
    (caption uri : string) :
  expected_uri caption_nonempty_ext i token = Some (caption, uri) →
  f ∈ required_fields →
  token_uri i (JDict (delete f token)) = Err (KeyError f).
Proof.
  unfold expected_uri. intros H Hf.
  destruct (token !! "type") as [[type| |]|] eqn:Ht; try done.
  destruct (token !! "secret") as [[| |secret]|] eqn:Hs; try done.
  destruct (token !! "label") as [[label| |]|] eqn:Hl; try done.
  destruct (token !! "algo") as [[algo| |]|] eqn:Ha; try done.
  destruct (token !! "digits") as [digits|] eqn:Hd; try done.
  destruct (token !! "period") as [period|] eqn:Hp; try done.
  clear H.
  unfold token_uri. cbn [as_dict mbind result_bind].
  rewrite issuer_of_spec. cbn [mbind result_bind].
  unfold required_fields in Hf.
  repeat (apply elem_of_cons in Hf as [-> | Hf]);
    [ .. | by apply elem_of_nil in Hf];
    try rewrite (token_item_delete_ne token _ "secret" (VList secret)) by done;
    try rewrite (token_item_delete_ne token _ "algo" (VStr algo)) by done;
    try rewrite (token_item_delete_ne token _ "digits" digits) by done;
    try rewrite (token_item_delete_ne token _ "period" period) by done;
    try rewrite (token_item_delete_ne token _ "type" (VStr type)) by done;
    try (rewrite label_of_delete by done; rewrite (label_of_spec _ _ Hl));
    rewrite ?label_of_delete_label, ?token_item_delete_eq;
    reflexivity.
Qed.

Lemma token_uri_missing_key_witness :
  token_uri 3 (JDict (delete "period"%string tok_acme)) = Err (KeyError "period").
Proof.
  eapply (token_uri_missing_key 3 tok_acme "period").
  - vm_compute. reflexivity.
  - unfold required_fields. repeat ((by left) || right).
Defined.


(** ** The images of a run *)

(** X8. When [generate_images] returns, it has encoded every record: the
    list has one entry per record, in order, and the [k]-th record has
    its caption in the [k]-th entry and its URI in the image
    [<k>.png], which is the image the entry names. *)
Theorem generate_images_success images_path (tokens : list json)
    (l : list (string * string)) :
  gen_result (generate_images images_path tokens) = Ok l →
  length l = length tokens ∧
  length (gen_saved (generate_images images_path tokens)) = length tokens ∧
  ∀ k tok, tokens !! k = Some tok →
    ∃ label uri,
      token_uri (Z.of_nat k) tok = Ok (label, uri) ∧
      l !! k = Some (py_str label, image_file images_path (Z.of_nat k)) ∧
      gen_saved (generate_images images_path tokens) !! k
      = Some (SavedImage uri (image_file images_path (Z.of_nat k))).
Proof.
  unfold generate_images.
  destruct (generate_images_loop_inv images_path tokens 0 [] [])
    as (es & Hes & -> & Hres).
  intros Hl. rewrite Hl in Hres. destruct Hres as [Hlen ->].
  cbn [app]. unfold entries_of, saved_of. rewrite !length_imap.
  split; [done|]. split; [done|].
  intros k tok Hk.
  destruct (lookup_lt_is_Some_2 es k) as [[label uri] He].
  { rewrite Hlen. by eapply lookup_lt_Some. }
  destruct (Hes k _ He) as (tok' & Htok & Huri).
  rewrite Hk in Htok. injection Htok as <-. rewrite Z.add_0_l in Huri.
  exists label, uri. rewrite !list_lookup_imap, He. done.
Qed.

Lemma generate_images_success_witness :
  length (gen_saved (generate_images "qrcodes" [JDict tok_acme; JDict tok_zed]))
  = length [JDict tok_acme; JDict tok_zed].
Proof.
  apply (generate_images_success "qrcodes" [JDict tok_acme; JDict tok_zed]
           [("Acme:alice@x.com", "qrcodes/0.png"); ("Zed", "qrcodes/1.png")]%string).
  vm_compute. reflexivity.
Defined.


(** ** Paths of the images *)

Lemma append_inj_r (s1 s2 t : string) : s1 +:+ t = s2 +:+ t → s1 = s2.
Proof.
  intros H. apply (f_equal list_ascii_of_string) in H.
  rewrite !list_ascii_app in H. apply app_inv_tail in H.
  rewrite <-(String.string_of_list_ascii_of_string s1),
          <-(String.string_of_list_ascii_of_string s2).
  by rewrite H.
Qed.

Lemma split_slash_free (s : string) : slash_free s → split_slash s = [s].
Proof.
  unfold slash_free. induction s as [|c s IH]; [done|].
  cbn [String.list_ascii_of_string split_slash]. intros H.
  apply Forall_cons in H as [Hc Hs].
  apply Ascii.eqb_neq in Hc. rewrite Hc, IH by done. done.
Qed.

Lemma split_root_relative (c : ascii) (s : string) :
  c ≠ "/"%char → split_root (String c s) = (EmptyString, String c s).
Proof. intros Hc. apply Ascii.eqb_neq in Hc. cbn [split_root]. by rewrite Hc. Qed.

(** The name of an image: a single component. *)
Lemma parse_path_name (name : string) :
  slash_free name → name ≠ EmptyString → name ≠ "."%string →
  parse_path name = PurePath EmptyString [name].
Proof.
  intros Hfree Hne Hdot. destruct name as [|c s]; [done|].
  unfold parse_path. rewrite split_root_relative.
  - rewrite split_slash_free by done. cbn [List.filter].
    unfold is_part.
    apply String.eqb_neq in Hne, Hdot. by rewrite Hne, Hdot.
  - unfold slash_free in Hfree. cbn in Hfree. by apply Forall_cons in Hfree as [? _].
Qed.

Lemma join_snoc_inj (sep : string) (ps : list string) (n1 n2 : string) :
  join sep (ps ++ [n1]) = join sep (ps ++ [n2]) → n1 = n2.
Proof.
  induction ps as [|p ps IH]; [done|].
  cbn [app]. destruct ps as [|p' ps].
  - cbn. intros H. by do 2 apply String.app_inj in H.
  - cbn [app join] in *. intros H. do 2 apply String.app_inj in H. by apply IH.
Qed.

Lemma path_str_snoc (root : string) (ps : list string) (n : string) :
  path_str (PurePath root (ps ++ [n])) = root +:+ join "/" (ps ++ [n]).
Proof.
  unfold path_str. cbn [path_root path_parts].
  destruct root; [|done]. by destruct ps.
Qed.

Lemma path_join_name_inj (path n1 n2 : string) :
  parse_path n1 = PurePath EmptyString [n1] →
  parse_path n2 = PurePath EmptyString [n2] →
  path_join path n1 = path_join path n2 → n1 = n2.
Proof.
  unfold path_join, path_div. intros -> ->. cbn [path_root path_parts String.eqb].
  rewrite !path_str_snoc. intros H.
  apply String.app_inj in H. by apply join_snoc_inj in H.
Qed.

Lemma pretty_N_char_number (x : N) : is_number_char (pretty_N_char x).
Proof.
  unfold is_number_char, pretty_N_char.
  assert (H : ∀ c, In c (list_ascii_of_string "0123456789-") →
                   c ∈ list_ascii_of_string "0123456789-")
    by (intros c; apply list_elem_of_In).
  repeat (match goal with
          | |- context [match ?y with _ => _ end] => destruct y
          end); apply H; cbn; tauto.
Qed.

Lemma pretty_N_go_chars (x : N) : ∀ s,
  Forall is_number_char (list_ascii_of_string s) →
  Forall is_number_char (list_ascii_of_string (pretty_N_go x s)).
Proof.
  induction (N.lt_wf_0 x) as [x _ IH]. intros s Hs.
  destruct (decide (0 < x)%N) as [Hx|Hx].
  - rewrite pretty_N_go_step by done. apply IH.
    + apply N.div_lt; lia.
    + cbn. apply Forall_cons. split; [apply pretty_N_char_number | done].
  - assert (x = 0%N) as -> by lia. by rewrite pretty_N_go_0.
Qed.

Lemma pretty_N_chars (x : N) :
  Forall is_number_char (list_ascii_of_string (pretty x)).
Proof.
  unfold pretty, pretty_N. destruct (decide (x = 0%N)).
  - cbn. apply Forall_cons. split; [|constructor].
    unfold is_number_char. cbn. set_solver.
  - by apply pretty_N_go_chars.
Qed.

Lemma pretty_Z_chars (z : Z) :
  Forall is_number_char (list_ascii_of_string (pretty z)).
Proof.
  unfold pretty, pretty_Z. destruct z as [|p|p].
  - cbn. apply Forall_cons. split; [|constructor].
    unfold is_number_char. cbn. set_solver.
  - apply pretty_N_chars.
  - rewrite list_ascii_app. apply Forall_app. split; [|apply pretty_N_chars].
    cbn. apply Forall_cons. split; [|constructor].
    unfold is_number_char. cbn. set_solver.
Qed.

Lemma image_name_part (i : Z) :
  parse_path (pretty i +:+ ".png") = PurePath EmptyString [pretty i +:+ ".png"].
Proof.
  apply parse_path_name.
  - unfold slash_free. rewrite list_ascii_app. apply Forall_app. split.
    + eapply Forall_impl; [apply pretty_Z_chars|].
      intros c Hc ->. unfold is_number_char in Hc. cbn in Hc.
      repeat (apply elem_of_cons in Hc as [Hc | Hc]; [discriminate|]).
      by apply elem_of_nil in Hc.
    + cbn. repeat (apply Forall_cons; split; [discriminate|]). constructor.
  - intros H. apply (f_equal list_ascii_of_string) in H.
    rewrite list_ascii_app in H. apply (f_equal length) in H.
    rewrite length_app in H. cbn in H. lia.
  - intros H. apply (f_equal list_ascii_of_string) in H.
    rewrite list_ascii_app in H. apply (f_equal length) in H.
    rewrite length_app in H. cbn in H. lia.
Qed.

Lemma image_file_inj images_path (i j : Z) :
  image_file images_path i = image_file images_path j → i = j.
Proof.
  unfold image_file. intros H.
  apply path_join_name_inj in H; [|apply image_name_part..].
  apply append_inj_r in H. by apply pretty_Z_inj in H.
Qed.

(** X9. [generate_images] never writes two images to the same file, and
    every entry it returns names one of the files written. *)
Theorem generate_images_files images_path (tokens : list json) :
  NoDup (img_file <$> gen_saved (generate_images images_path tokens)) ∧
  ∀ l, gen_result (generate_images images_path tokens) = Ok l →
       l.*2 = img_file <$> gen_saved (generate_images images_path tokens).
Proof.
  unfold generate_images.
  destruct (generate_images_loop_inv images_path tokens 0 [] [])
    as (es & _ & -> & Hres).
  cbn [app]. split.
  - apply NoDup_alt. intros j1 j2 f. unfold saved_of.
    rewrite !list_lookup_fmap, !list_lookup_imap.
    destruct (es !! j1), (es !! j2); cbn; try done.
    intros [= <-] [= H]. apply image_file_inj in H. lia.
  - intros l Hl. rewrite Hl in Hres. destruct Hres as [_ ->]. cbn [app].
    apply list_eq. intros j. unfold entries_of, saved_of.
    rewrite !list_lookup_fmap, !list_lookup_imap. by destruct (es !! j).
Qed.


(** ** Decoding the credential file *)

Lemma parse_loop_decoded E elems : ∀ tokens name tokens' name',
  parse_loop E elems tokens name = Ok (tokens', name') →
  ∃ new, tokens' = tokens ++ new ∧
         Forall2 (decodes_to E) (filter (fun e => ¬ reserved e) elems) new.
Proof.
  induction elems as [|e elems IH]; intros tokens name tokens' name' H.
  - injection H as <- _. exists []. by rewrite app_nil_r.
  - cbn [parse_loop] in H. rewrite filter_cons.
    destruct (decide (xs_name e = Some "tokenOrder"%string)) as [Hres|Hres].
    + rewrite decide_False by (intros Hn; by apply Hn).
      by eapply IH.
    + rewrite decide_True by done.
      destruct (xs_text e) as [text|] eqn:Htext; [|done].
      destruct (json_loads E text) as [token|] eqn:Hjson; [|done].
      apply IH in H as (new & -> & Hnew).
      exists (token :: new). rewrite <-app_assoc. split; [done|].
      constructor; [|done]. exists text. done.
Qed.

(** X10. The records [parse_tokens_from_xml] returns are the decoded
    values of the entries other than [tokenOrder], one for one and in
    document order; the [tokenOrder] entry is skipped without being
    decoded. *)
Theorem parse_tokens_decoded E fs content elems (tokens : list json) :
  tokens_file fs = Some content →
  xml_findall_string E content = Some elems →
  parse_tokens_from_xml E fs = Ok tokens →
  Forall2 (decodes_to E) (filter (fun e => ¬ reserved e) elems) tokens.
Proof.
  intros Hfile Hxml.
  rewrite (parse_tokens_from_xml_present E fs content Hfile), Hxml.
  unfold parse_elems.
  destruct (parse_loop E elems [] None) as [[tokens' name]|] eqn:Hloop; [|done].
  cbn [mbind result_bind]. destruct name; [|done]. intros [= <-].
  by apply parse_loop_decoded in Hloop as (new & -> & Hnew).
Qed.

Lemma parse_tokens_decoded_witness :
  Forall2 (decodes_to demo_externals)
    (filter (fun e => ¬ reserved e) demo_elems)
    [JDict tok_alice; JDict tok_no_digits].
Proof.
  apply (parse_tokens_decoded demo_externals demo_files demo_tokens_xml
           demo_elems); vm_compute; reflexivity.
Defined.

Lemma parse_loop_ext E E' elems : ∀ tokens name,
  (∀ text, json_loads E' text = json_loads E text) →
  parse_loop E' elems tokens name = parse_loop E elems tokens name.
Proof.
  induction elems as [|e elems IH]; intros tokens name Hjson; [done|].
  cbn [parse_loop]. destruct (decide _); [by apply IH|].
  destruct (xs_text e) as [text|]; [|done]. rewrite Hjson.
  destruct (json_loads E text); [by apply IH | done].
Qed.

(** X11. When the tokens file is already in the work directory,
    [parse_tokens_from_xml] decodes it as it is: the result does not
    depend on the backup file nor on [adb], [zlib] or [tarfile]. *)
Theorem parse_uses_existing_tokens_file E E' fs fs' content :
  tokens_file fs = Some content →
  tokens_file fs' = Some content →
  xml_findall_string E' content = xml_findall_string E content →
  (∀ text, json_loads E' text = json_loads E text) →
  parse_tokens_from_xml E' fs' = parse_tokens_from_xml E fs.
Proof.
  intros Hfs Hfs' Hxml Hjson.
  rewrite (parse_tokens_from_xml_present E fs content Hfs).
  rewrite (parse_tokens_from_xml_present E' fs' content Hfs').
  rewrite Hxml. destruct (xml_findall_string E content) as [elems|]; [|done].
  unfold parse_elems. by rewrite (parse_loop_ext E E').
Qed.

Lemma parse_uses_existing_tokens_file_witness :
  parse_tokens_from_xml (with_adb (fun _ => (0, Some corrupt_backup)) demo_externals)
    (WorkdirFiles (Some corrupt_backup) (Some demo_tokens_xml))
  = parse_tokens_from_xml demo_externals demo_files.
Proof.
  apply (parse_uses_existing_tokens_file demo_externals _ demo_files _
           demo_tokens_xml); reflexivity.
Defined.

(** ** Unwrapping the backup *)

(** X12. When [extract_tokens_file] returns, the work directory holds a
    non-empty backup and the tokens file, whose content is the member
    [apps/org.fedorahosted.freeotp/sp/tokens.xml] of the archive obtained
    by decompressing the backup from its 25th byte on; a backup that was
    already there and not empty is left as it was. *)
Theorem extract_tokens_file_result E fs fs' :
  extract_tokens_file E fs = Ok fs' →
  ∃ content tarstream member,
    backup_file fs' = Some content ∧ (0 < length content)%nat ∧
    zlib_decompress E (drop 24 content) = Some tarstream ∧
    tar_extract E tarstream APK_PATH = Ok (Some member) ∧
    tokens_file fs' = Some member ∧
    (has_backup fs = true → backup_file fs' = backup_file fs).
Proof.
  unfold extract_tokens_file. intros H.
  assert (Hpre : ∃ fs1, (if has_backup fs then Ok fs else backup_freeotp E fs) = Ok fs1 ∧
                        has_backup fs1 = true ∧
                        (has_backup fs = true → fs1 = fs)).
  { destruct (has_backup fs) eqn:Hhas.
    - exists fs. done.
    - unfold backup_freeotp in *.
      destruct (adb_backup E (backup_file fs)) as [ret backup].
      destruct (decide (ret ≠ 0)); [done|].
      destruct backup as [content|]; [|done].
      destruct (decide (length content = 0%nat)); [done|].
      eexists. split; [done|]. split; [|done].
      unfold has_backup. cbn. apply bool_decide_eq_true_2. lia. }
  destruct Hpre as (fs1 & Hfs1 & Hhas1 & Hsame).
  rewrite Hfs1 in H. cbn [mbind result_bind] in H.
  unfold has_backup in Hhas1.
  destruct (backup_file fs1) as [content|] eqn:Hbak; [|done].
  apply bool_decide_eq_true in Hhas1.
  destruct (zlib_decompress E (drop 24 content)) as [tarstream|] eqn:Hz; [|done].
  cbn [mbind result_bind] in H.
  destruct (tar_extract E tarstream APK_PATH) as [[member|]|] eqn:Ht; try done.
  cbn [mbind result_bind tokens_file] in H. injection H as <-.
  exists content, tarstream, member. cbn [backup_file tokens_file].
  repeat split; try done.
  intros Hhas. by rewrite (Hsame Hhas) in Hbak.
Qed.

(** X13. With a non-empty backup in the work directory,
    [extract_tokens_file] does not call [adb]: its result is the same
    whatever [adb] would do. *)
Theorem extract_keeps_backup E fs adb :
  has_backup fs = true →
  extract_tokens_file (with_adb adb E) fs = extract_tokens_file E fs.
Proof. intros Hhas. unfold extract_tokens_file. by rewrite Hhas. Qed.

Lemma extract_keeps_backup_witness :
  extract_tokens_file (with_adb (fun _ => (0, Some hollow_backup)) demo_externals)
    (WorkdirFiles (Some corrupt_backup) None)
  = extract_tokens_file demo_externals (WorkdirFiles (Some corrupt_backup) None).
Proof.
  apply (extract_keeps_backup demo_externals
           (WorkdirFiles (Some corrupt_backup) None)
           (fun _ => (0, Some hollow_backup))).
  vm_compute. reflexivity.
Defined.

(** X14. The first 24 bytes of the backup are never looked at: two
    backups that differ in them only are unwrapped and decoded to the
    same result. *)
Theorem header_ignored E (h1 h2 payload : list Byte.byte) :
  length h1 = 24%nat → length h2 = 24%nat →
  parse_tokens_from_xml E (WorkdirFiles (Some (h1 ++ payload)) None)
  = parse_tokens_from_xml E (WorkdirFiles (Some (h2 ++ payload)) None).
Proof.
  intros H1 H2. unfold parse_tokens_from_xml, extract_tokens_file, has_backup.
  cbn [tokens_file backup_file].
  rewrite !bool_decide_eq_true_2 by (rewrite length_app; lia).
  cbn [mbind result_bind backup_file].
  rewrite !drop_app_length' by done.
  destruct (zlib_decompress E payload) as [tarstream|]; [|done].
  cbn [mbind result_bind].
  destruct (tar_extract E tarstream APK_PATH) as [[member|]|]; done.
Qed.

Lemma header_ignored_witness :
  parse_tokens_from_xml demo_externals
    (WorkdirFiles (Some (backup_header ++ zlib_of_empty)) None)
  = parse_tokens_from_xml demo_externals
      (WorkdirFiles (Some (replicate 24 Byte.x00 ++ zlib_of_empty)) None).
Proof.
  apply (header_ignored demo_externals backup_header (replicate 24 Byte.x00));
    reflexivity.
Defined.

(** X15. Without a usable backup and without tokens file, a run calls
    [adb]; if [adb] fails, or leaves an empty file, the run stops with
    the message of [backup_freeotp] and nothing is decoded or rendered. *)
Theorem backup_failure E workdir fs :
  tokens_file fs = None → has_backup fs = false →
  (adb_backup E (backup_file fs)).1 ≠ 0 ∨
  adb_backup E (backup_file fs) = (0, Some []) →
  run_qrcodes E workdir fs
  = RunOutcome [] (Err (SystemExit "Backup freeotp failed!")).
Proof.
  intros Htok Hhas Hadb. apply run_qrcodes_parse_error.
  unfold parse_tokens_from_xml, extract_tokens_file, backup_freeotp, fail.
  rewrite Htok, Hhas. cbn [mbind result_bind].
  destruct Hadb as [Hret | ->].
  - destruct (adb_backup E (backup_file fs)) as [ret backup]. cbn in Hret.
    by rewrite decide_True by done.
  - rewrite decide_False by (intros Hn; by apply Hn). done.
Qed.

Lemma backup_failure_witness :
  run_qrcodes demo_externals "." (WorkdirFiles None None)
  = RunOutcome [] (Err (SystemExit "Backup freeotp failed!")).
Proof.
  apply (backup_failure demo_externals "." (WorkdirFiles None None));
    [reflexivity | reflexivity | left; vm_compute; discriminate].
Defined.


(** ** The order of the entries *)

Lemma ltb_irrefl (s : string) : String.ltb s s = false.
Proof. unfold String.ltb. by rewrite string_compare_refl. Qed.

Lemma insert_by_key_filter (x : string * string) (l : list (string * string))
    (c : string) :
  filter (fun e => e.1 = c) (insert_by_key x l)
  = filter (fun e => e.1 = c) (x :: l).
Proof.
  induction l as [|y l IH]; [done|]. cbn [insert_by_key].
  destruct (String.ltb y.1 x.1) eqn:Hlt; [|done].
  rewrite filter_cons, IH, !filter_cons.
  destruct (decide (y.1 = c)) as [Hy|Hy]; [|done].
  destruct (decide (x.1 = c)) as [Hx|Hx]; [|done].
  rewrite Hy, Hx, ltb_irrefl in Hlt. done.
Qed.

(** X16. The sort is stable: entries with the same caption keep the
    order in which their records were encoded. *)
Theorem sorted_by_caption_stable (l : list (string * string)) (c : string) :
  filter (fun e => e.1 = c) (sorted_by_caption l)
  = filter (fun e => e.1 = c) l.
Proof.
  induction l as [|x l IH]; [done|].
  cbn [sorted_by_caption foldr].
  rewrite insert_by_key_filter, !filter_cons.
  fold (sorted_by_caption l). by rewrite IH.
Qed.

Lemma insert_by_key_least (x : string * string) (l : list (string * string)) :
  Forall (caption_le x) l → insert_by_key x l = x :: l.
Proof.
  destruct l as [|y l]; [done|]. intros H.
  apply Forall_cons in H as [Hxy _]. cbn [insert_by_key].
  destruct (String.ltb y.1 x.1) eqn:Hlt; [|done].
  assert (Heq : x.1 = y.1)
    by (apply str_le_antisym; [exact Hxy | by apply ltb_le]).
  rewrite Heq, ltb_irrefl in Hlt. done.
Qed.

Lemma sorted_by_caption_fixed (l : list (string * string)) :
  StronglySorted caption_le l → sorted_by_caption l = l.
Proof.
  induction 1 as [|x l _ IH Hx]; [done|].
  cbn [sorted_by_caption foldr]. fold (sorted_by_caption l).
  rewrite IH. by apply insert_by_key_least.
Qed.

(** X17. Sorting leaves a list that is already in caption order as it
    is; sorting twice is sorting once. *)
Theorem sorted_by_caption_idempotent (l : list (string * string)) :
  (StronglySorted caption_le l → sorted_by_caption l = l) ∧
  sorted_by_caption (sorted_by_caption l) = sorted_by_caption l.
Proof.
  split; [apply sorted_by_caption_fixed|].
  apply sorted_by_caption_fixed, sorted_by_caption_sorted.
Qed.


Lemma generate_images_entry images_path (tokens : list json)
    (l : list (string * string)) :
  gen_result (generate_images images_path tokens) = Ok l →
  length l = length tokens ∧
  ∀ k e, l !! k = Some e ↔
    ∃ tok label uri,
      tokens !! k = Some tok ∧
      token_uri (Z.of_nat k) tok = Ok (label, uri) ∧
      e = (py_str label, image_file images_path (Z.of_nat k)).
Proof.
  unfold generate_images.
  destruct (generate_images_loop_inv images_path tokens 0 [] [])
    as (es & Hes & _ & Hres).
  intros Hl. rewrite Hl in Hres. destruct Hres as [Hlen ->].
  cbn [app]. unfold entries_of. rewrite length_imap. split; [done|].
  intros k e. rewrite list_lookup_imap. split.
  - destruct (es !! k) as [[label uri]|] eqn:He; [|done].
    cbn. intros [= <-]. destruct (Hes k _ He) as (tok & Htok & Huri).
    rewrite Z.add_0_l in Huri. by exists tok, label, uri.
  - intros (tok & label & uri & Htok & Huri & ->).
    destruct (lookup_lt_is_Some_2 es k) as [[label' uri'] He].
    { rewrite Hlen. by eapply lookup_lt_Some. }
    destruct (Hes k _ He) as (tok' & Htok' & Huri').
    rewrite Htok in Htok'. injection Htok' as <-.
    rewrite Z.add_0_l, Huri in Huri'. injection Huri' as <- <-.
    by rewrite He.
Qed.

(** X18. In the document of a run every QR code stands with the caption
    of its own record, and every record is there once: the entries of
    the document are, up to their order, the pairs made of the caption
    of the [k]-th record and of the image [<k>.png] of its URI. *)
Theorem run_document_entries E workdir fs (doc : list pdf_cmd) :
  run_result (run_qrcodes E workdir fs) = Ok doc →
  ∃ tokens,
    parse_tokens_from_xml E fs = Ok tokens ∧
    length (doc_entries doc) = length tokens ∧
    ∀ caption file,
      (caption, file) ∈ doc_entries doc ↔
      ∃ k tok label uri,
        tokens !! k = Some tok ∧
        token_uri (Z.of_nat k) tok = Ok (label, uri) ∧
        caption = py_str label ∧
        file = image_file (path_join workdir IMAGES_DIR) (Z.of_nat k).
Proof.
  unfold run_qrcodes.
  destruct (parse_tokens_from_xml E fs) as [tokens|]; [|done].
  destruct (gen_result _) as [l|] eqn:Hgen; [|done].
  cbn. intros [= <-]. exists tokens. split; [done|].
  rewrite doc_entries_generate_doc.
  apply generate_images_entry in Hgen as [Hlen Hentry].
  split; [by rewrite sorted_by_caption_perm|].
  intros caption file. rewrite sorted_by_caption_perm.
  rewrite list_elem_of_lookup. split.
  - intros [k Hk]. apply Hentry in Hk as (tok & label & uri & ? & ? & [= -> ->]).
    by exists k, tok, label, uri.
  - intros (k & tok & label & uri & Htok & Huri & -> & ->).
    exists k. apply Hentry. by exists tok, label, uri.
Qed.

Lemma run_document_entries_witness :
  ∃ tokens,
    parse_tokens_from_xml toy_externals (WorkdirFiles None None) = Ok tokens ∧
    length (doc_entries
              (generate_doc "qrcodes.pdf" [("alice", "qrcodes/0.png")]%string))
    = length tokens ∧
    ∀ caption file,
      (caption, file) ∈ doc_entries
         (generate_doc "qrcodes.pdf" [("alice", "qrcodes/0.png")]%string) ↔
      ∃ k tok label uri,
        tokens !! k = Some tok ∧
        token_uri (Z.of_nat k) tok = Ok (label, uri) ∧
        caption = py_str label ∧
        file = image_file (path_join "." IMAGES_DIR) (Z.of_nat k).
Proof.
  apply (run_document_entries toy_externals "." (WorkdirFiles None None)).
  vm_compute. reflexivity.
Defined.

Lemma extract_tokens_file_result_witness :
  ∃ content tarstream member,
    backup_file (WorkdirFiles (Some (backup_header ++ good_tokens_xml))
                   (Some good_tokens_xml)) = Some content ∧
    (0 < length content)%nat ∧
    zlib_decompress toy_externals (drop 24 content) = Some tarstream ∧
    tar_extract toy_externals tarstream APK_PATH = Ok (Some member) ∧
    tokens_file (WorkdirFiles (Some (backup_header ++ good_tokens_xml))
                   (Some good_tokens_xml)) = Some member ∧
    (has_backup (WorkdirFiles None None) = true →
     backup_file (WorkdirFiles (Some (backup_header ++ good_tokens_xml))
                    (Some good_tokens_xml))
     = backup_file (WorkdirFiles None None)).
Proof.
  apply (extract_tokens_file_result toy_externals (WorkdirFiles None None)).
  vm_compute. reflexivity.
Defined.

(** ** The text of a path *)

Lemma split_slash_cons (s : string) : ∃ part parts, split_slash s = part :: parts.
Proof.
  induction s as [|c s (part & parts & IH)]; cbn [split_slash]; [eauto|].
  destruct (Ascii.eqb c "/"); [eauto|]. rewrite IH. eauto.
Qed.














(** ** Removing the files of a run *)

Module DiskFacts.
Import Disk.

Lemma lookup_node_nonempty (d : gmap (list string) node) (p : list string) :
  p ≠ [] → lookup_node d p = d !! p.
Proof. by destruct p. Qed.

Lemma lookup_remove_path workdir f d q :
  remove_path workdir f d !! q
  = if is_file d (workdir ++ f) then
      if decide (q = workdir ++ f) then None else d !! q
    else if is_dir d (workdir ++ f) then
      if decide ((workdir ++ f) `prefix_of` q) then None else d !! q
    else d !! q.
Proof.
  unfold remove_path. cbv zeta.
  destruct (is_file d (workdir ++ f)).
  - unfold unlink. destruct (decide (q = workdir ++ f)) as [->|Hne].
    + apply lookup_delete_eq.
    + by apply lookup_delete_ne.
  - destruct (is_dir d (workdir ++ f)); [|done].
    unfold rmtree. destruct (decide ((workdir ++ f) `prefix_of` q)) as [Hp|Hp].
    + apply map_lookup_filter_None. right. intros x _ Hn. by apply Hn.
    + destruct (d !! q) as [x|] eqn:Hq.
      * by apply map_lookup_filter_Some.
      * apply map_lookup_filter_None. by left.
Qed.

Lemma remove_path_subseteq workdir f d q x :
  remove_path workdir f d !! q = Some x → d !! q = Some x.
Proof.
  rewrite lookup_remove_path.
  repeat (case_match; try done).
Qed.

Lemma absent_lookup d p : p ≠ [] → absent d p ↔ d !! p = None.
Proof.
  intros Hp. unfold absent, is_file, is_dir, lookup_node.
  destruct p as [|c p]; [done|].
  destruct (d !! (c :: p)) as [[|]|]; split; (by intros [??]) || done.
Qed.

Lemma remove_path_absent workdir f d :
  workdir ++ f ≠ [] → absent (remove_path workdir f d) (workdir ++ f).
Proof.
  intros Hne. apply absent_lookup; [done|]. rewrite lookup_remove_path.
  destruct (is_file d (workdir ++ f)) eqn:Hf.
  - by rewrite decide_True.
  - destruct (is_dir d (workdir ++ f)) eqn:Hd.
    + by rewrite decide_True.
    + by apply absent_lookup.
Qed.

Lemma remove_path_keeps_absent workdir f d p :
  p ≠ [] → absent d p → absent (remove_path workdir f d) p.
Proof.
  intros Hp. rewrite !absent_lookup by done. intros Hnone.
  destruct (remove_path workdir f d !! p) as [x|] eqn:Hx; [|done].
  apply remove_path_subseteq in Hx. congruence.
Qed.

Lemma remove_path_noop workdir f d :
  absent d (workdir ++ f) → remove_path workdir f d = d.
Proof. intros [Hf Hd]. unfold remove_path. cbv zeta. by rewrite Hf, Hd. Qed.

Lemma artifact_nonempty workdir a : a ∈ artifacts workdir → a ≠ [].
Proof.
  unfold artifacts. intros Hin.
  repeat (apply elem_of_cons in Hin as [-> | Hin];
          [by destruct workdir|]).
  by apply elem_of_nil in Hin.
Qed.

Lemma clean_absent workdir d a :
  a ∈ artifacts workdir → absent (clean workdir d) a.
Proof.
  unfold artifacts, clean. cbv zeta. intros Hin.
  assert (Hne : ∀ x : string, workdir ++ [x] ≠ []) by (by destruct workdir).
  apply elem_of_cons in Hin as [-> | Hin].
  { do 2 (apply remove_path_keeps_absent; [done|]).
    by apply remove_path_absent. }
  apply elem_of_cons in Hin as [-> | Hin].
  { apply remove_path_keeps_absent; [done|]. by apply remove_path_absent. }
  apply elem_of_cons in Hin as [-> | Hin].
  { by apply remove_path_absent. }
  by apply elem_of_nil in Hin.
Qed.

Lemma remove_path_other workdir f d q :
  ¬ (workdir ++ f) `prefix_of` q → remove_path workdir f d !! q = d !! q.
Proof.
  intros Hp. rewrite lookup_remove_path.
  rewrite (decide_False (P := (workdir ++ f) `prefix_of` q)) by done.
  rewrite (decide_False (P := q = workdir ++ f)) by (by intros ->).
  by repeat case_match.
Qed.

Lemma sibling_not_prefix (workdir : list string) (x y : string) r :
  x ≠ y → ¬ (workdir ++ [x]) `prefix_of` (workdir ++ y :: r).
Proof.
  intros Hne Hp. apply prefix_app_inv in Hp.
  by apply prefix_cons_inv_1 in Hp.
Qed.

Lemma is_dir_remove_path_other workdir f d p :
  p ≠ [] → ¬ (workdir ++ f) `prefix_of` p →
  is_dir (remove_path workdir f d) p = is_dir d p.
Proof.
  intros Hne Hp. unfold is_dir, lookup_node. destruct p as [|c p]; [done|].
  by rewrite remove_path_other.
Qed.

Lemma remove_path_dir_below workdir f d q :
  workdir ++ f ≠ [] → is_dir d (workdir ++ f) = true →
  (workdir ++ f) `prefix_of` q → remove_path workdir f d !! q = None.
Proof.
  intros Hne Hd Hq. rewrite lookup_remove_path.
  assert (Hf : is_file d (workdir ++ f) = false).
  { unfold is_dir, is_file in *. by destruct (lookup_node d _) as [[|]|]. }
  rewrite Hf, Hd. by rewrite decide_True.
Qed.

Lemma remove_path_keeps_none workdir f d q :
  d !! q = None → remove_path workdir f d !! q = None.
Proof.
  intros Hnone. destruct (remove_path workdir f d !! q) as [x|] eqn:Hx; [|done].
  apply remove_path_subseteq in Hx. congruence.
Qed.

End DiskFacts.

Lemma clean_removes_below (workdir : list string)
    (d : gmap (list string) Disk.node) (a q : list string) :
  a ∈ Disk.artifacts workdir → Disk.is_dir d a = true → a `prefix_of` q →
  Disk.clean workdir d !! q = None.
Proof.
  intros Hin.
  assert (Hne : ∀ x : string, workdir ++ [x] ≠ []) by (by destruct workdir).
  unfold Disk.artifacts in Hin. unfold Disk.clean. cbv zeta.
  apply elem_of_cons in Hin as [-> | Hin].
  { intros Hd Hq. do 2 apply DiskFacts.remove_path_keeps_none.
    by apply DiskFacts.remove_path_dir_below. }
  apply elem_of_cons in Hin as [-> | Hin].
  { intros Hd Hq. apply DiskFacts.remove_path_keeps_none.
    apply DiskFacts.remove_path_dir_below; [done| |done].
    rewrite DiskFacts.is_dir_remove_path_other; [done|done|].
    by apply DiskFacts.sibling_not_prefix. }
  apply elem_of_cons in Hin as [-> | Hin].
  { intros Hd Hq.
    apply DiskFacts.remove_path_dir_below; [done| |done].
    rewrite !DiskFacts.is_dir_remove_path_other;
      [done|done| |done|]; by apply DiskFacts.sibling_not_prefix. }
  by apply elem_of_nil in Hin.
Qed.

(** X20. After [clean], the backup file, the [apps] directory and the
    [qrcodes] directory are gone from the work directory, and so is
    everything that was inside the two directories. *)
Theorem clean_removes (workdir : list string)
    (d : gmap (list string) Disk.node) (a : list string) :
  a ∈ Disk.artifacts workdir →
  Disk.absent (Disk.clean workdir d) a ∧
  (Disk.is_dir d a = true →
   ∀ q, a `prefix_of` q → Disk.clean workdir d !! q = None).
Proof.
  intros Hin. split; [by apply DiskFacts.clean_absent|].
  intros Hd q Hq. by apply (clean_removes_below workdir d a).
Qed.

(** X21. [clean] removes nothing else: a path that is none of the three
    and lies below none of them is left as it is; in particular
    [qrcodes.pdf] stays. *)
Theorem clean_preserves (workdir : list string)
    (d : gmap (list string) Disk.node) (q : list string) :
  (∀ a, a ∈ Disk.artifacts workdir → ¬ a `prefix_of` q) →
  Disk.clean workdir d !! q = d !! q.
Proof.
  intros Hq. unfold Disk.clean. cbv zeta.
  rewrite !DiskFacts.remove_path_other; [done|..];
    apply Hq; unfold Disk.artifacts; repeat ((by left) || right).
Qed.

(** X22. [clean] is idempotent. *)
Theorem clean_idempotent (workdir : list string)
    (d : gmap (list string) Disk.node) :
  Disk.clean workdir (Disk.clean workdir d) = Disk.clean workdir d.
Proof.
  assert (Habs : ∀ a, a ∈ Disk.artifacts workdir →
                      Disk.absent (Disk.clean workdir d) a)
    by (intros a; apply DiskFacts.clean_absent).
  assert (Hne : ∀ x : string, workdir ++ [x] ≠ []) by (by destruct workdir).
  unfold Disk.clean at 1. cbv zeta.
  rewrite (DiskFacts.remove_path_noop workdir [FREEOTP_BACKUP])
    by (apply Habs; unfold Disk.artifacts; by left).
  rewrite (DiskFacts.remove_path_noop workdir [APK_ROOT])
    by (apply Habs; unfold Disk.artifacts; right; by left).
  rewrite (DiskFacts.remove_path_noop workdir [IMAGES_DIR])
    by (apply Habs; unfold Disk.artifacts; right; right; by left).
  done.
Qed.


Lemma clean_removes_witness :
  Disk.absent (Disk.clean ["work"%string] demo_disk) ["work"; "apps"]%string ∧
  (Disk.is_dir demo_disk ["work"; "apps"]%string = true →
   ∀ q, ["work"; "apps"]%string `prefix_of` q →
        Disk.clean ["work"%string] demo_disk !! q = None).
Proof.
  apply (clean_removes ["work"%string] demo_disk ["work"; "apps"]%string).
  unfold Disk.artifacts. right. by left.
Defined.

Lemma clean_preserves_witness :
  Disk.clean ["work"%string] demo_disk !! ["work"; PDF_FILE]
  = demo_disk !! ["work"; PDF_FILE].
Proof.
  apply (clean_preserves ["work"%string] demo_disk ["work"%string; PDF_FILE]).
  intros a Hin. unfold Disk.artifacts in Hin.
  repeat (apply elem_of_cons in Hin as [-> | Hin];
          [by apply (DiskFacts.sibling_not_prefix ["work"%string] _ PDF_FILE [])|]).
  by apply elem_of_nil in Hin.
Defined.

(** X23. When [create_dir_if_not_exists] returns, the directory exists,
    every other path is as before (nothing is removed or overwritten),
    and calling it again changes nothing. *)
Theorem create_dir_result (d d' : gmap (list string) Disk.node)
    (p : list string) :
  Disk.create_dir_if_not_exists d p = inr d' →
  Disk.is_dir d' p = true ∧
  (∀ q x, d !! q = Some x → d' !! q = Some x) ∧
  (∀ q, q ≠ p → d' !! q = d !! q) ∧
  Disk.create_dir_if_not_exists d' p = inr d'.
Proof.
  unfold Disk.create_dir_if_not_exists.
  destruct (Disk.is_dir d p) eqn:Hdir; cbn [negb].
  - intros [= <-]. by rewrite Hdir.
  - unfold Disk.mkdir.
    destruct (Disk.lookup_node d p) eqn:Hp; [done|].
    destruct (Disk.lookup_node d (Disk.parent p)) as [[|]|]; try done.
    intros [= <-].
    assert (Hne : p ≠ []) by (by intros ->).
    assert (Hnone : d !! p = None) by (by destruct p).
    assert (Hnew : Disk.is_dir (<[p:=Disk.Dir]> d) p = true).
    { unfold Disk.is_dir, Disk.lookup_node. destruct p; [done|].
      by rewrite lookup_insert_eq. }
    rewrite Hnew. cbn [negb]. repeat split; try done.
    + intros q x Hq. rewrite lookup_insert_ne; [done|]. intros <-. congruence.
    + intros q Hq. by rewrite lookup_insert_ne.
Qed.

Lemma create_dir_result_witness :
  Disk.is_dir (<[ ["work"%string] := Disk.Dir ]> ∅) ["work"%string] = true.
Proof.
  apply (create_dir_result ∅ _ ["work"%string]). reflexivity.
Defined.


(** X24. [clean] forgets the backup and the tokens file: the next run in
    the same work directory finds neither and starts by calling [adb];
    if the device is not there, it stops at once. *)
Theorem clean_forgets (E : externals) (workdir_name : string) (workdir : list string)
    (d : gmap (list string) Disk.node) :
  is_tree d →
  files_of workdir (Disk.clean workdir d) = WorkdirFiles None None ∧
  ((adb_backup E None).1 ≠ 0 →
   run_qrcodes E workdir_name (files_of workdir (Disk.clean workdir d))
   = RunOutcome [] (Err (SystemExit "Backup freeotp failed!"))).
Proof.
  intros Htree.
  assert (Hfiles : files_of workdir (Disk.clean workdir d) = WorkdirFiles None None).
  { unfold files_of, read_file. f_equal.
    - destruct (DiskFacts.clean_absent workdir d (workdir ++ [FREEOTP_BACKUP]))
        as [Hf _]; [unfold Disk.artifacts; by left|].
      unfold Disk.is_file in Hf. by destruct (Disk.lookup_node _ _) as [[|]|].
    - assert (Hnone : Disk.clean workdir d
                        !! (workdir ++ [APK_ROOT; APK_NAME; "sp"%string; TOKENS_FILE])
                      = None).
      { destruct (Disk.is_dir d (workdir ++ [APK_ROOT])) eqn:Hdir.
        - apply (clean_removes_below workdir d (workdir ++ [APK_ROOT]));
            [unfold Disk.artifacts; right; by left | done |].
          apply prefix_app, prefix_cons, prefix_nil.
        - unfold Disk.clean. cbv zeta.
          do 3 apply DiskFacts.remove_path_keeps_none.
          destruct (d !! _) as [x|] eqn:Hx; [|done].
          pose proof (Htree _ x (length workdir + 1)%nat Hx) as Hdir'.
          rewrite take_app_add in Hdir'. cbn [take] in Hdir'.
          rewrite Hdir' in Hdir; [done|]. rewrite length_app. cbn. lia. }
      rewrite DiskFacts.lookup_node_nonempty by (by destruct workdir).
      by rewrite Hnone. }
  split; [done|]. rewrite Hfiles. intros Hadb.
  apply run_qrcodes_parse_error.
  unfold parse_tokens_from_xml, extract_tokens_file, backup_freeotp, fail.
  cbn [tokens_file has_backup backup_file mbind result_bind].
  destruct (adb_backup E None) as [ret backup]. cbn in Hadb.
  by rewrite decide_True.
Qed.

Lemma demo_disk_dir (p : list string) :
  In (p, Disk.Dir)
     [ (["work"], Disk.Dir);
       (["work"; "apps"], Disk.Dir);
       (["work"; "apps"; "org.fedorahosted.freeotp"], Disk.Dir);
       (["work"; "apps"; "org.fedorahosted.freeotp"; "sp"], Disk.Dir);
       (["work"; "qrcodes"], Disk.Dir) ]%string →
  Disk.is_dir demo_disk p = true.
Proof.
  intros Hin. unfold Disk.is_dir, Disk.lookup_node.
  assert (Hp : demo_disk !! p = Some Disk.Dir).
  { unfold demo_disk. apply elem_of_list_to_map_1.
    - apply (bool_decide_unpack _). vm_compute. exact I.
    - cbn in Hin. repeat (destruct Hin as [[= <-] | Hin];
        [repeat ((by left) || right)|]). done. }
  rewrite Hp. by destruct p.
Qed.

Lemma demo_disk_tree : is_tree demo_disk.
Proof.
  intros q x n Hq Hn. unfold demo_disk in Hq.
  apply elem_of_list_to_map_2 in Hq.
  repeat (apply elem_of_cons in Hq as [[= -> ->] | Hq];
          [ cbn [length] in Hn;
            destruct n as [|n]; [done|];
            do 5 (try (destruct n as [|n];
                       [ solve [ apply demo_disk_dir; cbn [take];
                                 repeat (first [left; reflexivity | right]) ] |]));
            lia |]).
  by apply elem_of_nil in Hq.
Qed.

Lemma clean_forgets_witness :
  files_of ["work"%string] (Disk.clean ["work"%string] demo_disk)
  = WorkdirFiles None None.
Proof.
  apply (clean_forgets demo_externals "work" ["work"%string] demo_disk).
  apply demo_disk_tree.
Defined.
